(** * scap_client/cli.py: the command line client of the SCAP daemon

    A shallow embedding of [src/scap_client/cli.py] and of the library
    calls it makes, followed by the properties of the client that the
    specification states and by further properties of the code.

    The client is a Python 2 program (it imports the static [gobject]
    binding).  Three things it uses live outside the file and are modelled
    as follows.

    - [argparse]: the parser that [main] configures is interpreted by a
      model of [ArgumentParser.parse_args] as shipped with CPython 2.7
      (option recognition, the [A]/[O]/[-] pattern string, greedy matching
      of positionals, type conversion, choices, defaults, sub-parsers).
    - The interpreter's [int()] on a command line word is a parameter
      ([int_of_str]) of the parser model.
    - The D-Bus session bus and the remote object are a [Host] record; the
      remote methods are state transformers over an abstract daemon state,
      so a reply may depend on earlier calls.

    Effects are explicit: a computation maps the daemon state to a result
    (a value or a raised exception), the new daemon state and the list of
    events it caused, in order. *)

From Stdlib Require Import ZArith List String Ascii Bool Lia DecimalString.
From stdpp Require Import gmap strings.
From Equations Require Import Equations.
Import ListNotations.
Open Scope string_scope.
Open Scope list_scope.

(** ** Python values, exceptions and results *)

Set Warnings "-register-all".

Inductive value : Type :=
| VNone
| VInt (z : Z)
| VStr (s : string)
| VList (l : list value).

(** Python's [==] on the values above. *)
Fixpoint value_eqb (a b : value) {struct a} : bool :=
  match a, b with
  | VNone, VNone => true
  | VInt x, VInt y => Z.eqb x y
  | VStr s, VStr t => String.eqb s t
  | VList l, VList m =>
      (fix list_eqb (l m : list value) {struct l} : bool :=
         match l, m with
         | [], [] => true
         | x :: l', y :: m' => value_eqb x y && list_eqb l' m'
         | _, _ => false
         end) l m
  | _, _ => false
  end.

(** Faults that the daemon sends back over the bus. *)
Inductive fault : Type :=
| NotFoundError
| OtherFault (name : string).

Inductive exn : Type :=
| SystemExit (code : Z)
| DBusException (f : fault)
| AttributeError (attr : string)
| TypeError (what : string)
| IndexError
| RuntimeError (unknown_action : value).   (* raised by [main] only *)

Inductive pyresult (A : Type) : Type :=
| Ok (a : A)
| Raise (e : exn).
Arguments Ok {A} a.
Arguments Raise {A} e.

(** What comes back from the bus: a value, or the fault that the other
    side raised, which the binding turns into a DBusException. *)
Inductive reply (A : Type) : Type :=
| Reply (a : A)
| Fault (f : fault).
Arguments Reply {A} a.
Arguments Fault {A} f.

Definition of_reply {A} (r : reply A) : pyresult A :=
  match r with
  | Reply a => Ok a
  | Fault f => Raise (DBusException f)
  end.

(** The decimal numeral that the [%i] conversion writes. *)
Definition string_of_Z (z : Z) : string := NilZero.string_of_int (Z.to_int z).

(** A list of values that are all strings, as a list of strings. *)
Fixpoint strings_of (l : list value) : option (list string) :=
  match l with
  | [] => Some []
  | VStr s :: l' =>
      match strings_of l' with
      | Some ws => Some (s :: ws)
      | None => None
      end
  | _ :: _ => None
  end.

(** An [argparse.Namespace]: attribute name to value. *)
Abbreviation Namespace := (gmap string value).

(** ** argparse (CPython 2.7) *)

Module argparse.

(** *** Parser descriptions *)

Inductive nargs_t : Type :=
| NargsNone        (* nargs not given: exactly one word *)
| NargsOptional    (* nargs="?" *)
| NargsParser.     (* the sub-command action, "A..." *)

Inductive type_t : Type :=
| TypeStr          (* type=str, the default *)
| TypeInt.         (* type=int *)

(** A positional argument as [add_argument] records it. *)
Record Action : Type := {
  dest : string;
  type : type_t;
  nargs : nargs_t;
  choices : option (list value);
  default : value
}.

(** A sub-parser: its positionals in declaration order and the attributes
    fixed by [set_defaults].  Every parser also has [-h] and [--help]. *)
Record ArgumentParser : Type := {
  positionals : list Action;
  defaults : list (string * value)
}.

Definition new_parser : ArgumentParser :=
  {| positionals := []; defaults := [] |}.

Definition add_argument (p : ArgumentParser) (a : Action) : ArgumentParser :=
  {| positionals := positionals p ++ [a]; defaults := defaults p |}.

Definition set_defaults (p : ArgumentParser) (k : string) (v : value)
  : ArgumentParser :=
  {| positionals := positionals p; defaults := defaults p ++ [(k, v)] |}.

(** The object returned by [add_subparsers()]: name to sub-parser, in the
    order of the [add_parser] calls. *)
Abbreviation SubParsers := (list (string * ArgumentParser)).

Definition option_strings : list string := ["-h"; "--help"].

(** *** How parsing ends *)

Inductive argerror : Type :=
| TooFewArguments
| UnrecognizedArguments (extras : list string)
| InvalidChoice (word : value)
| InvalidValue (word : string)
| IgnoredExplicitArgument (arg : string)
| AmbiguousOption (word : string)
| UnexpectedOptionString (word : string).

(** The ways in which the parser can die of an exception of its own. *)
Inductive crash : Type :=
| CrashIndexError
| CrashTypeError (what : string)
| CrashAttributeError (attr : string).

(** [Done]: parsing goes on.  [Help]: [-h] was met, the help text goes to
    standard output and the process exits with 0.  [Error]: the usage and a
    message go to standard error and the process exits with 2.  [Crash]:
    an exception other than [SystemExit] leaves the parser. *)
Inductive outcome (A : Type) : Type :=
| Done (a : A)
| Help
| Error (e : argerror)
| Crash (e : crash).
Arguments Done {A} a.
Arguments Help {A}.
Arguments Error {A} e.
Arguments Crash {A} e.

Definition obind {A B} (m : outcome A) (k : A -> outcome B) : outcome B :=
  match m with
  | Done a => k a
  | Help => Help
  | Error e => Error e
  | Crash e => Crash e
  end.

Notation "x <-- m ;;; k" := (obind m (fun x => k))
  (at level 100, m at next level, right associativity).

(** *** Recognising options: [_parse_optional] *)

Definition in_strings (s : string) (l : list string) : bool :=
  existsb (String.eqb s) l.

Fixpoint contains (c : ascii) (s : string) : bool :=
  match s with
  | EmptyString => false
  | String d s' => Ascii.eqb c d || contains c s'
  end.

(** [s.split(c, 1)] when [c] occurs in [s]. *)
Fixpoint split_at (c : ascii) (s : string) : option (string * string) :=
  match s with
  | EmptyString => None
  | String d s' =>
      if Ascii.eqb c d then Some (EmptyString, s')
      else match split_at c s' with
           | Some (a, b) => Some (String d a, b)
           | None => None
           end
  end.

Definition is_digit (c : ascii) : bool :=
  (48 <=? nat_of_ascii c)%nat && (nat_of_ascii c <=? 57)%nat.

Fixpoint all_digits (s : string) : bool :=
  match s with
  | EmptyString => true
  | String c s' => is_digit c && all_digits s'
  end.

Definition digits1 (s : string) : bool :=
  negb (String.eqb s "") && all_digits s.

(** [$] also matches just before a final newline. *)
Fixpoint chomp (s : string) : string :=
  match s with
  | EmptyString => EmptyString
  | String c EmptyString => if Ascii.eqb c "010" then EmptyString else s
  | String c s' => String c (chomp s')
  end.

(** The regular expression [^-\d+$|^-\d*\.\d+$]. *)
Definition _negative_number_matcher (s : string) : bool :=
  match s with
  | String "-" r =>
      let r := chomp r in
      digits1 r
      || match split_at "." r with
         | Some (a, b) => all_digits a && digits1 b
         | None => false
         end
  | _ => false
  end.

(** What [_parse_optional] returns for a word that is not a positional:
    the option string it stands for ([None] when the parser has no such
    option) and the argument glued to it, if any. *)
Record option_tuple : Type := {
  option_string : option string;
  explicit_arg : option string
}.

Definition _get_option_tuples (s : string)
  : outcome (list (string * option string)) :=
  match String.get 0 s, String.get 1 s with
  | Some c0, Some c1 =>
      if Ascii.eqb c0 "-" && Ascii.eqb c1 "-" then
        let '(option_prefix, explicit) :=
          match split_at "=" s with
          | Some (p, e) => (p, Some e)
          | None => (s, None)
          end in
        Done (map (fun o => (o, explicit))
                (filter (fun o => String.prefix option_prefix o)
                   option_strings))
      else if Ascii.eqb c0 "-" then
        let short_option_prefix := String.substring 0 2 s in
        let short_explicit_arg :=
          String.substring 2 (String.length s - 2) s in
        Done (flat_map
                (fun o =>
                   if String.eqb o short_option_prefix
                   then [(o, Some short_explicit_arg)]
                   else if String.prefix s o then [(o, None)] else [])
                option_strings)
      else Error (UnexpectedOptionString s)
  | _, _ => Error (UnexpectedOptionString s)
  end.

Definition _parse_optional (s : string) : outcome (option option_tuple) :=
  if String.eqb s "" then Done None
  else if negb (String.prefix "-" s) then Done None
  else if in_strings s option_strings then
    Done (Some {| option_string := Some s; explicit_arg := None |})
  else if (String.length s =? 1)%nat then Done None
  else
    let direct :=
      match split_at "=" s with
      | Some (o, e) =>
          if in_strings o option_strings
          then Some {| option_string := Some o; explicit_arg := Some e |}
          else None
      | None => None
      end in
    match direct with
    | Some t => Done (Some t)
    | None =>
        tuples <-- _get_option_tuples s ;;;
        match tuples with
        | _ :: _ :: _ => Error (AmbiguousOption s)
        | [(o, e)] =>
            Done (Some {| option_string := Some o; explicit_arg := e |})
        | [] =>
            if _negative_number_matcher s then Done None
            else if contains " " s then Done None
            else Done (Some {| option_string := None; explicit_arg := None |})
        end
    end.

(** *** The pattern string *)

(** A command line word after classification: an argument ([A]), the first
    [--] ([-]) or an option ([O]). *)
Inductive tok : Type :=
| TokA (s : string)
| TokDash
| TokO (s : string) (t : option_tuple).

Definition arg_string (t : tok) : string :=
  match t with
  | TokA s => s
  | TokDash => "--"
  | TokO s _ => s
  end.

Fixpoint classify (arg_strings : list string) : outcome (list tok) :=
  match arg_strings with
  | [] => Done []
  | s :: rest =>
      if String.eqb s "--" then Done (TokDash :: map TokA rest)
      else
        o <-- _parse_optional s ;;;
        toks <-- classify rest ;;;
        Done (match o with
              | None => TokA s
              | Some t => TokO s t
              end :: toks)
  end.

(** *** Matching positionals against the pattern *)

Fixpoint leading_dashes (p : list tok) : nat :=
  match p with
  | TokDash :: p' => S (leading_dashes p')
  | _ => 0
  end.

(** [n; n-1; ...; 0]: a greedy repetition gives back one item at a time. *)
Fixpoint countdown (n : nat) : list nat :=
  match n with
  | 0 => [0]
  | S n' => n :: countdown n'
  end.

(** The lengths that the group of one positional can take at the head of
    the pattern [p], in the order in which the regular expression engine
    tries them.  The group of a plain positional is any dashes, one [A],
    any dashes; with nargs="?" the [A] is optional; the sub-command group
    is any dashes, one [A], then everything that follows. *)
Definition group_candidates (n : nargs_t) (p : list tok) : list nat :=
  let d := leading_dashes p in
  match n, drop d p with
  | NargsNone, TokA _ :: q =>
      map (fun e => d + 1 + e) (countdown (leading_dashes q))
  | NargsOptional, TokA _ :: q =>
      map (fun e => d + 1 + e) (countdown (leading_dashes q)) ++ countdown d
  | NargsOptional, _ => countdown d
  | NargsParser, TokA _ :: q =>
      map (fun e => d + 1 + e) (countdown (length q))
  | _, _ => []
  end.

(** [re.match] of the concatenated groups: the first assignment of
    lengths, in backtracking order, that lets every group match. *)
Fixpoint match_groups (groups : list nargs_t) (p : list tok)
  : option (list nat) :=
  match groups with
  | [] => Some []
  | g :: groups' =>
      (fix attempt (cands : list nat) : option (list nat) :=
         match cands with
         | [] => None
         | k :: cands' =>
             match match_groups groups' (drop k p) with
             | Some counts => Some (k :: counts)
             | None => attempt cands'
             end
         end) (group_candidates g p)
  end.

Fixpoint match_slices (i : nat) (actions : list Action) (p : list tok)
  : list nat :=
  match i with
  | 0 => []
  | S i' =>
      match match_groups (map nargs (take i actions)) p with
      | Some counts => counts
      | None => match_slices i' actions p
      end
  end.

Definition _match_arguments_partial (actions : list Action) (p : list tok)
  : list nat :=
  match_slices (length actions) actions p.

(** *** Converting the matched words: [_get_values] *)

(** [list.remove(x)]: drops the first occurrence, if any. *)
Fixpoint remove_first (x : string) (l : list string) : list string :=
  match l with
  | [] => []
  | y :: l' => if String.eqb x y then l' else y :: remove_first x l'
  end.

Section Parsing.

(** [int()] of the interpreter on a word; [None] stands for ValueError. *)
Variable int_of_str : string -> option Z.

Definition _get_value (a : Action) (arg_string : string) : outcome value :=
  match type a with
  | TypeStr => Done (VStr arg_string)
  | TypeInt =>
      match int_of_str arg_string with
      | Some z => Done (VInt z)
      | None => Error (InvalidValue arg_string)
      end
  end.

Definition _check_value (a : Action) (v : value) : outcome unit :=
  match choices a with
  | Some cs =>
      if existsb (value_eqb v) cs then Done tt else Error (InvalidChoice v)
  | None => Done tt
  end.

Fixpoint get_each (a : Action) (arg_strings : list string)
  : outcome (list value) :=
  match arg_strings with
  | [] => Done []
  | s :: rest =>
      v <-- _get_value a s ;;;
      vs <-- get_each a rest ;;;
      Done (v :: vs)
  end.

Fixpoint check_each (a : Action) (vs : list value) : outcome unit :=
  match vs with
  | [] => Done tt
  | v :: rest => _ <-- _check_value a v ;;; check_each a rest
  end.

Definition _get_values (a : Action) (arg_strings : list string)
  : outcome value :=
  let arg_strings :=
    match nargs a with
    | NargsParser => arg_strings
    | _ => remove_first "--" arg_strings
    end in
  match arg_strings, nargs a with
  | [], NargsOptional =>
      match default a with
      | VStr s =>
          v <-- _get_value a s ;;;
          _ <-- _check_value a v ;;;
          Done v
      | d => Done d
      end
  | [arg_string], (NargsNone | NargsOptional) =>
      v <-- _get_value a arg_string ;;;
      _ <-- _check_value a v ;;;
      Done v
  | _, NargsParser =>
      vs <-- get_each a arg_strings ;;;
      match vs with
      | v0 :: _ => _ <-- _check_value a v0 ;;; Done (VList vs)
      | [] => Crash CrashIndexError
      end
  | _, _ =>
      vs <-- get_each a arg_strings ;;;
      _ <-- check_each a vs ;;;
      Done (VList vs)
  end.

(** *** The parsing loop: [_parse_known_args] *)

Section Loop.

(** What an action does with its converted value ([Action.__call__]). *)
Variable call : Action -> Namespace -> value -> outcome Namespace.

Definition take_action (a : Action) (argument_strings : list string)
  (ns : Namespace) : outcome Namespace :=
  argument_values <-- _get_values a argument_strings ;;;
  call a ns argument_values.

Fixpoint take_actions (actions : list Action) (arg_counts : list nat)
  (toks : list tok) (ns : Namespace) : outcome (list tok * Namespace) :=
  match actions, arg_counts with
  | a :: actions', c :: arg_counts' =>
      ns' <-- take_action a (map arg_string (take c toks)) ns ;;;
      take_actions actions' arg_counts' (drop c toks) ns'
  | _, _ => Done (toks, ns)
  end.

(** The state of the loop: the words from [start_index] on, the
    positionals not yet consumed, the namespace and the extras. *)
Record loop_state : Type := {
  toks : list tok;
  pending : list Action;
  namespace : Namespace;
  extras : list string
}.

Definition consume_positionals (toks : list tok) (pending : list Action)
  (ns : Namespace) : outcome (list tok * list Action * Namespace) :=
  let arg_counts := _match_arguments_partial pending toks in
  r <-- take_actions pending arg_counts toks ns ;;;
  Done (fst r, drop (length arg_counts) pending, snd r).

(** The tail of a [-h...] word: every further letter must be an option
    that takes no argument, and [explicit_arg[0]] is evaluated without a
    check for the empty string. *)
Fixpoint more_short_options (explicit_arg : string) : outcome unit :=
  match explicit_arg with
  | EmptyString => Crash CrashIndexError
  | String c rest =>
      if in_strings (String "-" (String c EmptyString)) option_strings then
        match rest with
        | EmptyString => Help
        | _ => more_short_options rest
        end
      else Error (IgnoredExplicitArgument explicit_arg)
  end.

(** The only option of these parsers is the help action, which takes no
    argument and exits when it is taken. *)
Definition consume_optional (s : string) (t : option_tuple)
  (extras : list string) : outcome (list string) :=
  match option_string t with
  | None => Done (extras ++ [s])
  | Some o =>
      match explicit_arg t with
      | None => Help
      | Some e =>
          match String.get 1 o with
          | Some "-"%char => Error (IgnoredExplicitArgument e)
          | _ => _ <-- more_short_options e ;;; Help
          end
      end
  end.

(** The words before the next option, that option, and what follows it. *)
Fixpoint next_option (toks : list tok)
  : option (list tok * (string * option_tuple) * list tok) :=
  match toks with
  | [] => None
  | TokO s t :: rest => Some ([], (s, t), rest)
  | x :: rest =>
      match next_option rest with
      | Some (before, o, after) => Some (x :: before, o, after)
      | None => None
      end
  end.

(** One turn of the [while start_index <= max_option_string_index] loop;
    [None] when the condition is false. *)
Definition loop_step (st : loop_state) : outcome (option loop_state) :=
  match next_option (toks st) with
  | None => Done None
  | Some ([], (s, t), rest) =>
      extras' <-- consume_optional s t (extras st) ;;;
      Done (Some {| toks := rest; pending := pending st;
                    namespace := namespace st; extras := extras' |})
  | Some (before, (s, t), rest) =>
      r <-- consume_positionals (toks st) (pending st) (namespace st) ;;;
      let '(toks', pending', ns') := r in
      if (length toks' <? length (toks st))%nat then
        Done (Some {| toks := toks'; pending := pending';
                      namespace := ns'; extras := extras st |})
      else
        extras' <-- consume_optional s t
                      (extras st ++ map arg_string before) ;;;
        Done (Some {| toks := rest; pending := pending';
                      namespace := ns'; extras := extras' |})
  end.

Lemma next_option_length toks before o after :
  next_option toks = Some (before, o, after) ->
  (length after < length toks)%nat.
Proof.
  revert before o after.
  induction toks as [|x toks IH]; intros before o after H; [discriminate|].
  destruct x; simpl in H.
  1,2: destruct (next_option toks) as [[[b o'] a]|]; [|discriminate];
       injection H as <- <- <-; specialize (IH _ _ _ eq_refl); simpl; lia.
  injection H as <- <- <-. simpl. lia.
Defined.

Lemma loop_step_decreases st st' :
  loop_step st = Done (Some st') ->
  (length (toks st') < length (toks st))%nat.
Proof.
  unfold loop_step.
  destruct (next_option (toks st)) as [[[before [s t]] rest]|] eqn:Hn;
    [|discriminate].
  pose proof (next_option_length _ _ _ _ Hn) as Hlen.
  destruct before as [|b before].
  - destruct (consume_optional s t (extras st)); simpl; try discriminate.
    intros [= <-]. exact Hlen.
  - destruct (consume_positionals (toks st) (pending st) (namespace st))
      as [[[toks' pending'] ns']| | |]; simpl; try discriminate.
    destruct (Nat.ltb_spec (length toks') (length (toks st))).
    + intros [= <-]. simpl. assumption.
    + destruct (consume_optional s t _); simpl; try discriminate.
      intros [= <-]. exact Hlen.
Defined.

(** A value together with the equation that says where it comes from. *)
Definition inspect {A : Type} (a : A) : {b : A | a = b} := exist _ a eq_refl.

Equations? run_loop (st : loop_state) : outcome loop_state
  by wf (length (toks st)) lt :=
  run_loop st with inspect (loop_step st) := {
    | exist _ (Done None) _ => Done st
    | exist _ (Done (Some st')) H => run_loop st'
    | exist _ Help _ => Help
    | exist _ (Error e) _ => Error e
    | exist _ (Crash e) _ => Crash e }.
Proof. apply loop_step_decreases. exact H. Defined.

Definition _parse_known_args (arg_strings : list string)
  (positionals : list Action) (ns : Namespace)
  : outcome (Namespace * list string) :=
  ts <-- classify arg_strings ;;;
  st <-- run_loop {| toks := ts; pending := positionals;
                     namespace := ns; extras := [] |} ;;;
  r <-- consume_positionals (toks st) (pending st) (namespace st) ;;;
  let '(toks', pending', ns') := r in
  match pending' with
  | _ :: _ => Error TooFewArguments
  | [] => Done (ns', extras st ++ map arg_string toks')
  end.

End Loop.

(** *** [parse_known_args] and [parse_args] *)

Definition SUPPRESS : string := "==SUPPRESS==".
Definition _UNRECOGNIZED_ARGS_ATTR : string := "_unrecognized_args".

(** [if not hasattr(namespace, k): setattr(namespace, k, v)] *)
Definition set_if_absent (k : string) (v : value) (ns : Namespace)
  : Namespace :=
  match ns !! k with
  | Some _ => ns
  | None => <[k := v]> ns
  end.

(** The attributes a parser puts in the namespace before it reads any
    word: the default of each action, then the [set_defaults] pairs. *)
Definition add_defaults (p : ArgumentParser) (ns : Namespace) : Namespace :=
  let ns :=
    fold_left
      (fun ns a =>
         if String.eqb (dest a) SUPPRESS then ns
         else if value_eqb (default a) (VStr SUPPRESS) then ns
         else set_if_absent (dest a) (default a) ns)
      (positionals p) ns in
  fold_left (fun ns kv => set_if_absent (fst kv) (snd kv) ns) (defaults p) ns.

(** The words a sub-parser could not place travel in the namespace, under
    a name of their own, and [parse_known_args] moves them to the extras:
    [args.extend(getattr(namespace, _UNRECOGNIZED_ARGS_ATTR))] and
    [delattr].  Extending by a string adds its characters; a value that
    cannot be iterated is a TypeError, and so is, when the extras are
    joined for the error message, a list that holds something else than
    strings. *)
Definition pop_unrecognized (r : Namespace * list string)
  : outcome (Namespace * list string) :=
  match fst r !! _UNRECOGNIZED_ARGS_ATTR with
  | Some (VList l) =>
      match strings_of l with
      | Some ws => Done (delete _UNRECOGNIZED_ARGS_ATTR (fst r), snd r ++ ws)
      | None => Crash (CrashTypeError "sequence item: expected string")
      end
  | Some (VStr s) =>
      Done (delete _UNRECOGNIZED_ARGS_ATTR (fst r),
            snd r ++ map (fun c => String c EmptyString)
                       (list_ascii_of_string s))
  | Some _ => Crash (CrashTypeError "object is not iterable")
  | None => Done r
  end.

(** [_StoreAction.__call__] *)
Definition store (a : Action) (ns : Namespace) (v : value)
  : outcome Namespace :=
  Done (<[dest a := v]> ns).

(** [parse_known_args] of a sub-parser, on a fresh namespace. *)
Definition parse_known_args_sub (p : ArgumentParser)
  (arg_strings : list string) : outcome (Namespace * list string) :=
  r <-- _parse_known_args store arg_strings (positionals p)
          (add_defaults p ∅) ;;;
  pop_unrecognized r.

(** [_name_parser_map[name]]: a later [add_parser] replaces an earlier one
    of the same name. *)
Fixpoint find_parser (name : string) (parsers : SubParsers)
  : option ArgumentParser :=
  match parsers with
  | [] => None
  | (n, p) :: rest =>
      match find_parser name rest with
      | Some q => Some q
      | None => if String.eqb name n then Some p else None
      end
  end.

(** The positional that [add_subparsers()] adds to the main parser. *)
Definition subparsers_action (parsers : SubParsers) : Action :=
  {| dest := SUPPRESS; type := TypeStr; nargs := NargsParser;
     choices := Some (map (fun np => VStr (fst np)) parsers);
     default := VNone |}.

(** [_SubParsersAction.__call__] *)
Definition subparsers_call (parsers : SubParsers) (a : Action)
  (ns : Namespace) (values : value) : outcome Namespace :=
  match values with
  | VList (VStr parser_name :: arg_values) =>
      let ns :=
        if String.eqb (dest a) SUPPRESS then ns
        else <[dest a := VStr parser_name]> ns in
      match find_parser parser_name parsers, strings_of arg_values with
      | None, _ => Error (InvalidChoice (VStr parser_name))
      | Some parser, Some arg_strings =>
          r <-- parse_known_args_sub parser arg_strings ;;;
          let '(subnamespace, arg_strings) := r in
          let ns := subnamespace ∪ ns in
          match arg_strings, ns !! _UNRECOGNIZED_ARGS_ATTR with
          | [], _ => Done ns
          | _, None =>
              Done (<[_UNRECOGNIZED_ARGS_ATTR :=
                        VList (map VStr arg_strings)]> ns)
          | _, Some (VList old) =>
              Done (<[_UNRECOGNIZED_ARGS_ATTR :=
                        VList (old ++ map VStr arg_strings)]> ns)
          | _, Some _ => Crash (CrashAttributeError "extend")
          end
      | Some _, None => Crash (CrashTypeError "arg_strings")
      end
  | _ => Crash (CrashTypeError "values")
  end.

(** [parse_known_args] of the main parser, which has no attribute of its
    own: only [-h], [--help] and the sub-command. *)
Definition parse_known_args (parsers : SubParsers)
  (args : list string) : outcome (Namespace * list string) :=
  r <-- _parse_known_args (subparsers_call parsers) args
          [subparsers_action parsers] ∅ ;;;
  pop_unrecognized r.

Definition parse_args (parsers : SubParsers) (args : list string)
  : outcome Namespace :=
  r <-- parse_known_args parsers args ;;;
  match snd r with
  | [] => Done (fst r)
  | argv => Error (UnrecognizedArguments argv)
  end.

End Parsing.

End argparse.

(** ** The D-Bus binding *)

(** Remote methods of the daemon, as the proxy returned by
    [dbus.Interface] offers them.  [S] is the state of the daemon: a call
    gives a reply, or the fault the daemon raised, and the next state. *)
Record Interface (S : Type) : Type := {
  ListTaskIDs : S -> reply (list Z) * S;
  GetTaskTitle : Z -> S -> reply string * S
}.
Arguments ListTaskIDs {S} _ _.
Arguments GetTaskTitle {S} _ _ _.

(** What [bus.get_object] returns: for an interface name, its methods. *)
Record ProxyObject (S : Type) : Type := {
  dbus_Interface : string -> Interface S
}.
Arguments dbus_Interface {S} _ _.

(** What [dbus.SessionBus()] returns. *)
Record Bus (S : Type) : Type := {
  get_object : string -> string -> reply (option (ProxyObject S))
}.
Arguments get_object {S} _ _ _.

(** The surroundings of one run of the client: the session bus and the
    three names that [scap_client.dbus_daemon] exports. *)
Record Host (S : Type) : Type := {
  dbus_SessionBus : reply (option (Bus S));
  BUS_NAME : string;
  OBJECT_PATH : string;
  DBUS_INTERFACE : string
}.
Arguments dbus_SessionBus {S} _.
Arguments BUS_NAME {S} _.
Arguments OBJECT_PATH {S} _.
Arguments DBUS_INTERFACE {S} _.

(** ** Events and computations *)

Inductive remote_call : Type :=
| CallListTaskIDs
| CallGetTaskTitle (task_id : Z).

(** What a run does that can be seen from outside, in order. *)
Inductive event : Type :=
| EvThreadsInit                          (* gobject.threads_init() *)
| EvSessionBus                           (* dbus.SessionBus() *)
| EvGetObject (bus_name path : string)    (* bus.get_object(...) *)
| EvParseArgs                            (* parse_args() reads sys.argv *)
| EvHelp                                 (* argparse: help on stdout *)
| EvUsage (e : argparse.argerror)        (* argparse: usage on stderr *)
| EvCall (c : remote_call)               (* a method call on the bus *)
| EvPrint (line : string).               (* print(line) *)

Section Client.

Context {S : Type}.

(** [int()] of the interpreter on a command line word. *)
Variable int_of_str : string -> option Z.

Definition M (A : Type) : Type := S -> pyresult A * S * list event.

Definition ret {A} (a : A) : M A := fun s => (Ok a, s, []).

Definition bind {A B} (m : M A) (k : A -> M B) : M B :=
  fun s =>
    match m s with
    | (Ok a, s', tr) =>
        match k a s' with
        | (r, s'', tr') => (r, s'', tr ++ tr')
        end
    | (Raise e, s', tr) => (Raise e, s', tr)
    end.

Definition raise {A} (e : exn) : M A := fun s => (Raise e, s, []).

Definition emit (ev : event) : M unit := fun s => (Ok tt, s, [ev]).

(** A call of the binding that does not reach the daemon. *)
Definition local {A} (ev : event) (r : reply A) : M A :=
  fun s => (of_reply r, s, [ev]).

(** A method call: the daemon answers and moves on. *)
Definition remote {A} (c : remote_call) (f : S -> reply A * S) : M A :=
  fun s => match f s with (r, s') => (of_reply r, s', [EvCall c]) end.

Notation "x <- m ;; k" := (bind m (fun x => k))
  (at level 100, m at next level, right associativity).
Notation "m ;; k" := (bind m (fun _ => k))
  (at level 100, right associativity).

(** *** The Python statements the client uses *)

Definition print (line : string) : M unit := emit (EvPrint line).

(** [sys.exit(code)] raises SystemExit. *)
Definition sys_exit (code : Z) : M unit := raise (SystemExit code).

(** [ns.name] *)
Definition getattr (ns : Namespace) (name : string) : M value :=
  match ns !! name with
  | Some v => ret v
  | None => raise (AttributeError name)
  end.

(** [for x in xs: body] *)
Fixpoint for_in {A} (xs : list A) (body : A -> M unit) : M unit :=
  match xs with
  | [] => ret tt
  | x :: xs' => body x ;; for_in xs' body
  end.

(** The [%i] conversion wants a number. *)
Definition format_i (v : value) : M string :=
  match v with
  | VInt z => ret (string_of_Z z)
  | _ => raise (TypeError "%d format: a number is required")
  end.

Definition TAB : string := String "009" EmptyString.

(** [dbus_iface.ListTaskIDs()]; on [None] the attribute is missing. *)
Definition call_ListTaskIDs (dbus_iface : option (Interface S))
  : M (list Z) :=
  match dbus_iface with
  | Some iface => remote CallListTaskIDs (ListTaskIDs iface)
  | None => raise (AttributeError "ListTaskIDs")
  end.

(** [dbus_iface.GetTaskTitle(task_id)]; the argument is sent as an
    integer.  The limits of the integer types of the bus are not
    modelled: every integer is sent. *)
Definition call_GetTaskTitle (dbus_iface : option (Interface S))
  (task_id : value) : M string :=
  match dbus_iface with
  | Some iface =>
      match task_id with
      | VInt z => remote (CallGetTaskTitle z) (GetTaskTitle iface z)
      | _ => raise (TypeError "GetTaskTitle: an integer is required")
      end
  | None => raise (AttributeError "GetTaskTitle")
  end.

(** *** cli.py *)

Definition get_dbus_interface (host : Host S)
  : M (option (Interface S)) :=
  emit EvThreadsInit ;;
  bus <- local EvSessionBus (dbus_SessionBus host) ;;
  match bus with
  | None => ret None
  | Some bus =>
      obj <- local (EvGetObject (BUS_NAME host) (OBJECT_PATH host))
               (get_object bus (BUS_NAME host) (OBJECT_PATH host)) ;;
      match obj with
      | None => ret None
      | Some obj => ret (Some (dbus_Interface obj (DBUS_INTERFACE host)))
      end
  end.

Definition cli_task (dbus_iface : option (Interface S)) (args : Namespace)
  : M unit :=
  task_id <- getattr args "task_id" ;;
  if value_eqb task_id VNone then
    task_ids <- call_ListTaskIDs dbus_iface ;;
    for_in task_ids (fun task_id =>
      title <- call_GetTaskTitle dbus_iface (VInt task_id) ;;
      print (string_of_Z task_id +:+ TAB +:+ TAB +:+ title
             +:+ TAB +:+ TAB +:+ "..."))
  else
    task_id <- getattr args "task_id" ;;
    title <- call_GetTaskTitle dbus_iface task_id ;;
    task_id <- getattr args "task_id" ;;
    id <- format_i task_id ;;
    print ("ID:" +:+ TAB +:+ id) ;;
    print ("Title:" +:+ TAB +:+ title).

Definition cli_status (dbus_iface : option (Interface S)) (args : Namespace)
  : M unit :=
  ret tt.

Definition cli_results (dbus_iface : option (Interface S)) (args : Namespace)
  : M unit :=
  ret tt.

(** The parsers that [main] builds, and their positionals. *)
Definition task_parser : argparse.ArgumentParser :=
  argparse.add_argument
    (argparse.set_defaults argparse.new_parser "action" (VStr "task"))
    {| argparse.dest := "task_id"; argparse.type := argparse.TypeInt;
       argparse.nargs := argparse.NargsOptional;
       argparse.choices := None; argparse.default := VNone |}.

Definition status_parser : argparse.ArgumentParser :=
  argparse.set_defaults argparse.new_parser "action" (VStr "status").

Definition task_id_arg : argparse.Action :=
  {| argparse.dest := "task_id"; argparse.type := argparse.TypeInt;
     argparse.nargs := argparse.NargsNone;
     argparse.choices := None; argparse.default := VNone |}.

Definition result_id_arg : argparse.Action :=
  {| argparse.dest := "result_id"; argparse.type := argparse.TypeInt;
     argparse.nargs := argparse.NargsOptional;
     argparse.choices := None; argparse.default := VNone |}.

Definition format_arg : argparse.Action :=
  {| argparse.dest := "format"; argparse.type := argparse.TypeStr;
     argparse.nargs := argparse.NargsOptional;
     argparse.choices := Some [VStr "html"; VStr "arf"];
     argparse.default := VStr "arf" |}.

Definition result_parser : argparse.ArgumentParser :=
  argparse.set_defaults
    (argparse.add_argument
       (argparse.add_argument
          (argparse.add_argument argparse.new_parser task_id_arg)
          result_id_arg)
       format_arg)
    "action" (VStr "result").

Definition subparsers : list (string * argparse.ArgumentParser) :=
  [("task", task_parser); ("status", status_parser);
   ("result", result_parser)].

(** [parser.parse_args()]: help and usage errors leave through
    SystemExit with 0 and 2. *)
Definition parser_parse_args (argv : list string) : M Namespace :=
  emit EvParseArgs ;;
  match argparse.parse_args int_of_str subparsers argv with
  | argparse.Done ns => ret ns
  | argparse.Help => emit EvHelp ;; raise (SystemExit 0)
  | argparse.Error e => emit (EvUsage e) ;; raise (SystemExit 2)
  | argparse.Crash argparse.CrashIndexError => raise IndexError
  | argparse.Crash (argparse.CrashTypeError what) => raise (TypeError what)
  | argparse.Crash (argparse.CrashAttributeError attr) =>
      raise (AttributeError attr)
  end.

Definition main (host : Host S) (argv : list string) : M unit :=
  dbus_iface <- get_dbus_interface host ;;
  (match dbus_iface with
   | None =>
       print "Error: Failed to connect to SCAP Client dbus interface." ;;
       sys_exit 1
   | Some _ => ret tt
   end) ;;
  args <- parser_parse_args argv ;;
  action <- getattr args "action" ;;
  if value_eqb action (VStr "task") then cli_task dbus_iface args
  else
    action <- getattr args "action" ;;
    if value_eqb action (VStr "status") then cli_status dbus_iface args
    else
      action <- getattr args "action" ;;
      if value_eqb action (VStr "result") then cli_results dbus_iface args
      else
        (* RuntimeError("Unknown action '%s'." % (args.action)) *)
        action <- getattr args "action" ;;
        raise (RuntimeError action).

End Client.

(** ** Observations on a run *)

(** The exit status of the interpreter: 0 when [main] returns, the code
    of a SystemExit, and 1 after any other exception that nobody caught. *)
Definition exit_status (r : pyresult unit) : Z :=
  match r with
  | Ok _ => 0
  | Raise (SystemExit code) => code
  | Raise _ => 1
  end.

(** The lines written by [print], in order. *)
Fixpoint printed (tr : list event) : list string :=
  match tr with
  | [] => []
  | EvPrint line :: tr' => line :: printed tr'
  | _ :: tr' => printed tr'
  end.

(** The method calls made on the bus, in order. *)
Fixpoint calls (tr : list event) : list remote_call :=
  match tr with
  | [] => []
  | EvCall c :: tr' => c :: calls tr'
  | _ :: tr' => calls tr'
  end.

(** An exception other than SystemExit that reaches the interpreter: the
    process dies with a traceback. *)
Definition uncaught (r : pyresult unit) : bool :=
  match r with
  | Ok _ => false
  | Raise (SystemExit _) => false
  | Raise _ => true
  end.

(** Events that belong to the connection attempt. *)
Definition connection_event (ev : event) : bool :=
  match ev with
  | EvThreadsInit | EvSessionBus | EvGetObject _ _ => true
  | _ => false
  end.

(** What [GetTaskTitle] answers for each id in turn, starting from the
    daemon state [s]: the titles, if no call fails, and the last state. *)
Fixpoint titles_of {S : Type} (iface : Interface S) (ids : list Z) (s : S)
  : option (list string) * S :=
  match ids with
  | [] => (Some [], s)
  | id :: ids' =>
      match GetTaskTitle iface id s with
      | (Reply title, s') =>
          match titles_of iface ids' s' with
          | (Some titles, s'') => (Some (title :: titles), s'')
          | (None, s'') => (None, s'')
          end
      | (Fault _, s') => (None, s')
      end
  end.

(** The summary line of one task. *)
Definition summary_line (task_id : Z) (title : string) : string :=
  string_of_Z task_id +:+ TAB +:+ TAB +:+ title +:+ TAB +:+ TAB +:+ "...".

(** What the summary loop leaves in the trace. *)
Fixpoint summary_events (ids : list Z) (titles : list string) : list event :=
  match ids, titles with
  | id :: ids', title :: titles' =>
      EvCall (CallGetTaskTitle id) :: EvPrint (summary_line id title)
      :: summary_events ids' titles'
  | _, _ => []
  end.

(** The body of the summary loop of [cli_task]. *)
Definition summary_body {S : Type} (iface : Interface S) (task_id : Z)
  : M (S:=S) unit :=
  bind (call_GetTaskTitle (Some iface) (VInt task_id))
    (fun title => print (summary_line task_id title)).

(** The if/elif chain that ends [main], on its own. *)
Definition dispatch {S : Type} (dbus_iface : option (Interface S))
  (args : Namespace) : S -> pyresult unit * S * list event :=
  match args !! "action" with
  | None => fun s => (Raise (AttributeError "action"), s, [])
  | Some action =>
      if value_eqb action (VStr "task") then cli_task dbus_iface args
      else if value_eqb action (VStr "status") then
             cli_status dbus_iface args
      else if value_eqb action (VStr "result") then
             cli_results dbus_iface args
      else fun s => (Raise (RuntimeError action), s, [])
  end.

(** ** Words, namespaces and patterns *)

(** A word that does not begin with a dash: the parser takes it for an
    argument, never for an option or for the separator. *)
Definition plain (s : string) : Prop := String.prefix "-" s = false.

(** The namespace of an accepted result command. *)
Definition result_namespace (task_id result_id format : value) : Namespace :=
  <["format" := format]>
    (<["result_id" := result_id]>
       (<["task_id" := task_id]>
          (argparse.add_defaults result_parser ∅))).

(** The FORMAT attribute holds one of the two declared choices. *)
Definition format_ok (ns : Namespace) : Prop :=
  ns !! "format" = Some (VStr "arf") \/ ns !! "format" = Some (VStr "html").

(** The attributes that dispatch and the result command rely on. *)
Definition action_ok (ns : Namespace) : Prop :=
  ns !! "action" = Some (VStr "task")
  \/ ns !! "action" = Some (VStr "status")
  \/ (ns !! "action" = Some (VStr "result") /\ format_ok ns).

(** The number of [--] separators in a pattern. *)
Fixpoint dashes (p : list argparse.tok) : nat :=
  match p with
  | [] => 0
  | argparse.TokDash :: p' => S (dashes p')
  | _ :: p' => dashes p'
  end.

(** The counts that [match_groups] returns: one per group, each among the
    lengths the group can take where it starts. *)
Fixpoint valid_counts (groups : list argparse.nargs_t)
  (p : list argparse.tok) (counts : list nat) : Prop :=
  match groups, counts with
  | [], [] => True
  | g :: groups', k :: counts' =>
      In k (argparse.group_candidates g p)
      /\ valid_counts groups' (drop k p) counts'
  | _, _ => False
  end.

(** What the parsing loop keeps: one separator at most in the words that
    remain, and a property [Inv] of the positionals still to be consumed
    and of the namespace. *)
Definition loop_inv (Inv : list argparse.Action -> Namespace -> Prop)
  (st : argparse.loop_state) : Prop :=
  dashes (argparse.toks st) <= 1
  /\ Inv (argparse.pending st) (argparse.namespace st).

(** ** Further observations and shapes *)

(** The namespace of an accepted task command. *)
Definition task_namespace (task_id : value) : Namespace :=
  <["task_id" := task_id]> (argparse.add_defaults task_parser ∅).

(** The namespace of an accepted status command. *)
Definition status_namespace : Namespace :=
  argparse.add_defaults status_parser ∅.

(** Events that a command handler causes. *)
Definition command_event (ev : event) : bool :=
  match ev with
  | EvCall _ | EvPrint _ => true
  | _ => false
  end.

(** An attribute that holds [None] or an integer. *)
Definition none_or_int (ns : Namespace) (name : string) : Prop :=
  ns !! name = Some VNone \/ exists z, ns !! name = Some (VInt z).

(** The three shapes of the namespace that the handlers can be given. *)
Definition args_ok (ns : Namespace) : Prop :=
  (ns !! "action" = Some (VStr "task") /\ none_or_int ns "task_id")
  \/ ns !! "action" = Some (VStr "status")
  \/ (ns !! "action" = Some (VStr "result")
      /\ none_or_int ns "result_id"
      /\ format_ok ns).

(** [ns'] has every attribute of [ns], the unrecognised words apart. *)
Definition extends (ns ns' : Namespace) : Prop :=
  forall k v,
    k <> argparse._UNRECOGNIZED_ARGS_ATTR -> ns !! k = Some v ->
    ns' !! k = Some v.

(** A parse that does not die of a TypeError or of an AttributeError. *)
Definition benign {A : Type} (o : argparse.outcome A) : Prop :=
  match o with
  | argparse.Crash (argparse.CrashTypeError _)
  | argparse.Crash (argparse.CrashAttributeError _) => False
  | _ => True
  end.

(** The unrecognised words, when the namespace carries any, are a list of
    strings. *)
Definition unrecognized_ok (ns : Namespace) : Prop :=
  ns !! argparse._UNRECOGNIZED_ARGS_ATTR = None
  \/ exists ws,
       ns !! argparse._UNRECOGNIZED_ARGS_ATTR = Some (VList (map VStr ws)).

(** How many events of a trace satisfy [p]. *)
Fixpoint occurrences (p : event -> bool) (tr : list event) : nat :=
  match tr with
  | [] => 0
  | ev :: tr' => (if p ev then 1 else 0) + occurrences p tr'
  end.

Definition is_SessionBus (ev : event) : bool :=
  match ev with EvSessionBus => true | _ => false end.

Definition is_GetObject (ev : event) : bool :=
  match ev with EvGetObject _ _ => true | _ => false end.

Definition is_ParseArgs (ev : event) : bool :=
  match ev with EvParseArgs => true | _ => false end.

(** ** A daemon for the scenarios *)

(** Modelled from the spec: the daemon ([scap_client.dbus_daemon]) is not
    part of the sources.  Its state is the table of known tasks, id and
    title, in the order in which [ListTaskIDs] reports them;
    [GetTaskTitle] fails with NotFoundError for an id that is not in the
    table, and no query changes the table. *)
Definition Tasks : Type := list (Z * string).

Fixpoint find_title (task_id : Z) (tasks : Tasks) : option string :=
  match tasks with
  | [] => None
  | (id, title) :: rest =>
      if Z.eqb id task_id then Some title else find_title task_id rest
  end.

Definition daemon : Interface Tasks :=
  {| ListTaskIDs := fun tasks => (Reply (map fst tasks), tasks);
     GetTaskTitle := fun task_id tasks =>
       (match find_title task_id tasks with
        | Some title => Reply title
        | None => Fault NotFoundError
        end, tasks) |}.

(** A session bus on which that daemon is reachable. *)
Definition session_host : Host Tasks :=
  {| dbus_SessionBus :=
       Reply (Some {| get_object := fun _ _ =>
                        Reply (Some {| dbus_Interface := fun _ => daemon |}) |});
     BUS_NAME := "BUS_NAME";
     OBJECT_PATH := "OBJECT_PATH";
     DBUS_INTERFACE := "DBUS_INTERFACE" |}.

(** No session bus. *)
Definition no_bus_host : Host Tasks :=
  {| dbus_SessionBus := Reply None;
     BUS_NAME := "BUS_NAME";
     OBJECT_PATH := "OBJECT_PATH";
     DBUS_INTERFACE := "DBUS_INTERFACE" |}.

Definition two_tasks : Tasks := [(1%Z, "Scan A"); (2%Z, "Scan B")].

(** [int()] on an optional sign followed by decimal digits, for the
    scenarios.  Python's [int()] also accepts blanks around the numeral;
    no scenario uses such a word. *)
Fixpoint digits_value (s : string) (acc : Z) : Z :=
  match s with
  | EmptyString => acc
  | String c s' =>
      digits_value s' (10 * acc + Z.of_nat (nat_of_ascii c - 48))%Z
  end.

Definition int_decimal (s : string) : option Z :=
  match s with
  | String "-" r =>
      if argparse.digits1 r then Some (- digits_value r 0)%Z else None
  | String "+" r =>
      if argparse.digits1 r then Some (digits_value r 0) else None
  | _ => if argparse.digits1 s then Some (digits_value s 0) else None
  end.

(** ** Other hosts and daemons *)

(** A session bus that cannot be reached: [dbus.SessionBus()] raises. *)
Definition unreachable_host : Host Tasks :=
  {| dbus_SessionBus :=
       Fault (OtherFault "org.freedesktop.DBus.Error.NoServer");
     BUS_NAME := "BUS_NAME";
     OBJECT_PATH := "OBJECT_PATH";
     DBUS_INTERFACE := "DBUS_INTERFACE" |}.

(** A session bus on which the interface [iface] is reachable. *)
Definition host_of (iface : Interface Tasks) : Host Tasks :=
  {| dbus_SessionBus :=
       Reply (Some {| get_object := fun _ _ =>
                        Reply (Some {| dbus_Interface := fun _ => iface |}) |});
     BUS_NAME := "BUS_NAME";
     OBJECT_PATH := "OBJECT_PATH";
     DBUS_INTERFACE := "DBUS_INTERFACE" |}.

(** A daemon whose list of ids is out of date: it reports [ids], whatever
    the table holds. *)
Definition stale_daemon (ids : list Z) : Interface Tasks :=
  {| ListTaskIDs := fun tasks => (Reply ids, tasks);
     GetTaskTitle := GetTaskTitle daemon |}.

(** A daemon that refuses to list its tasks. *)
Definition refusing_daemon : Interface Tasks :=
  {| ListTaskIDs := fun tasks =>
       (Fault (OtherFault "org.freedesktop.DBus.Error.AccessDenied"), tasks);
     GetTaskTitle := GetTaskTitle daemon |}.

(** * Properties *)

(** ** Computations *)

Section MonadFacts.

Context {S : Type}.

Lemma bind_ok {A B} (m : M (S:=S) A) (k : A -> M B) s a s' tr :
  m s = (Ok a, s', tr) ->
  bind m k s = (let '(r, s'', tr') := k a s' in (r, s'', tr ++ tr')).
Proof. intros H. unfold bind. rewrite H. reflexivity. Qed.

Lemma bind_raise {A B} (m : M (S:=S) A) (k : A -> M B) s e s' tr :
  m s = (Raise e, s', tr) -> bind m k s = (Raise e, s', tr).
Proof. intros H. unfold bind. rewrite H. reflexivity. Qed.

Lemma bind_ret {A B} (a : A) (k : A -> M (S:=S) B) s : bind (ret a) k s = k a s.
Proof. unfold bind, ret. destruct (k a s) as [[r s'] tr]. reflexivity. Qed.

End MonadFacts.

Lemma printed_app tr1 tr2 : printed (tr1 ++ tr2) = printed tr1 ++ printed tr2.
Proof.
  induction tr1 as [|ev tr1 IH]; [reflexivity|].
  destruct ev; simpl; rewrite IH; reflexivity.
Qed.

Lemma calls_app tr1 tr2 : calls (tr1 ++ tr2) = calls tr1 ++ calls tr2.
Proof.
  induction tr1 as [|ev tr1 IH]; [reflexivity|].
  destruct ev; simpl; rewrite IH; reflexivity.
Qed.

(** ** The connection attempt *)

(** [get_dbus_interface] never talks to the daemon: the state is unchanged
    and the trace holds connection events only, the first two being the
    thread initialisation and the call of [dbus.SessionBus]. *)
Lemma get_dbus_interface_trace {S} (host : Host S) (s : S) :
  exists r rest,
    get_dbus_interface host s = (r, s, EvThreadsInit :: EvSessionBus :: rest)
    /\ forallb connection_event rest = true.
Proof.
  unfold get_dbus_interface, bind, emit, local, ret.
  destruct (dbus_SessionBus host) as [[bus|]|e]; simpl.
  - destruct (get_object bus (BUS_NAME host) (OBJECT_PATH host))
      as [[obj|]|e]; simpl; eexists _, _; split; reflexivity.
  - eexists _, _; split; reflexivity.
  - eexists _, _; split; reflexivity.
Qed.

Lemma connection_events_silent tr :
  forallb connection_event tr = true -> printed tr = [] /\ calls tr = []
  /\ ~ In EvParseArgs tr.
Proof.
  induction tr as [|ev tr IH]; simpl; [tauto|].
  intros H. apply andb_true_iff in H as [Hev Htr].
  destruct (IH Htr) as (Hp & Hc & Hn).
  destruct ev; try discriminate; simpl; repeat split; auto;
    intros [Heq|Hin]; try discriminate; auto.
Qed.

(** ** [main] after the connection attempt *)

Section MainFacts.

Context {S : Type}.
Variable int_of_str : string -> option Z.

Lemma main_no_interface (host : Host S) argv s s0 tr0 :
  get_dbus_interface host s = (Ok None, s0, tr0) ->
  main int_of_str host argv s =
    (Raise (SystemExit 1), s0,
     tr0 ++ [EvPrint "Error: Failed to connect to SCAP Client dbus interface."]).
Proof.
  intros H. unfold main. rewrite (bind_ok _ _ _ _ _ _ H). reflexivity.
Qed.

Lemma main_connect_raises (host : Host S) argv s e s0 tr0 :
  get_dbus_interface host s = (Raise e, s0, tr0) ->
  main int_of_str host argv s = (Raise e, s0, tr0).
Proof. intros H. unfold main. apply bind_raise. exact H. Qed.

Lemma main_connected (host : Host S) argv s iface s0 tr0 :
  get_dbus_interface host s = (Ok (Some iface), s0, tr0) ->
  main int_of_str host argv s =
    match argparse.parse_args int_of_str subparsers argv with
    | argparse.Done ns =>
        let '(r, s1, tr1) := dispatch (Some iface) ns s0 in
        (r, s1, tr0 ++ EvParseArgs :: tr1)
    | argparse.Help => (Raise (SystemExit 0), s0, tr0 ++ [EvParseArgs; EvHelp])
    | argparse.Error e =>
        (Raise (SystemExit 2), s0, tr0 ++ [EvParseArgs; EvUsage e])
    | argparse.Crash argparse.CrashIndexError =>
        (Raise IndexError, s0, tr0 ++ [EvParseArgs])
    | argparse.Crash (argparse.CrashTypeError what) =>
        (Raise (TypeError what), s0, tr0 ++ [EvParseArgs])
    | argparse.Crash (argparse.CrashAttributeError attr) =>
        (Raise (AttributeError attr), s0, tr0 ++ [EvParseArgs])
    end.
Proof.
  intros H. unfold main. rewrite (bind_ok _ _ _ _ _ _ H).
  rewrite bind_ret. unfold parser_parse_args.
  destruct (argparse.parse_args int_of_str subparsers argv) as [ns| |e|[|w|w]].
  - unfold bind at 1. unfold bind at 1. simpl.
    unfold dispatch, getattr.
    destruct (ns !! "action") as [action|]; simpl; [|reflexivity].
    rewrite bind_ret.
    destruct (value_eqb action (VStr "task")).
    { destruct (cli_task (Some iface) ns s0) as [[r s1] tr1]. reflexivity. }
    rewrite bind_ret.
    destruct (value_eqb action (VStr "status")).
    { destruct (cli_status (Some iface) ns s0) as [[r s1] tr1]. reflexivity. }
    rewrite bind_ret.
    destruct (value_eqb action (VStr "result")).
    { destruct (cli_results (Some iface) ns s0) as [[r s1] tr1]. reflexivity. }
    rewrite bind_ret. reflexivity.
  - reflexivity.
  - reflexivity.
  - reflexivity.
  - reflexivity.
  - reflexivity.
Qed.

End MainFacts.

(** ** The parsing loop *)

Section LoopFacts.

Import argparse.

Variable int_of_str : string -> option Z.
Variable call : Action -> Namespace -> value -> outcome Namespace.

Lemma run_loop_step st :
  run_loop int_of_str call st =
    match loop_step int_of_str call st with
    | Done None => Done st
    | Done (Some st') => run_loop int_of_str call st'
    | Help => Help
    | Error e => Error e
    | Crash e => Crash e
    end.
Proof.
  rewrite run_loop_equation_1. unfold inspect.
  generalize (@eq_refl _ (loop_step int_of_str call st)).
  generalize (loop_step int_of_str call st) at 2 4 5.
  intros [[st'|]| |e|e] Heq; reflexivity.
Qed.

Lemma dashes_drop k p : dashes (drop k p) <= dashes p.
Proof.
  revert k. induction p as [|x p IH]; intros [|k]; simpl; try lia.
  specialize (IH k). destruct x; lia.
Qed.

Lemma dashes_map_TokA l : dashes (map TokA l) = 0.
Proof. induction l; simpl; auto. Qed.

(** [classify] marks one separator at most. *)
Lemma classify_dashes arg_strings ts :
  classify arg_strings = Done ts -> dashes ts <= 1.
Proof.
  revert ts. induction arg_strings as [|s rest IH]; intros ts; simpl.
  - intros [= <-]. simpl. lia.
  - destruct (String.eqb s "--").
    + intros [= <-]. simpl. rewrite dashes_map_TokA. lia.
    + destruct (_parse_optional s) as [o| |e|e]; simpl; try discriminate.
      destruct (classify rest) as [ts'| |e|e]; simpl; try discriminate.
      intros [= <-]. specialize (IH _ eq_refl). destruct o; simpl; lia.
Qed.

Lemma match_groups_valid groups p counts :
  match_groups groups p = Some counts -> valid_counts groups p counts.
Proof.
  revert p counts. induction groups as [|g groups IH]; intros p counts; simpl.
  - intros [= <-]. exact I.
  - assert (Hgen : forall cands,
      (forall k, In k cands -> In k (group_candidates g p)) ->
      (fix attempt (cands : list nat) : option (list nat) :=
         match cands with
         | [] => None
         | k :: cands' =>
             match match_groups groups (drop k p) with
             | Some counts => Some (k :: counts)
             | None => attempt cands'
             end
         end) cands = Some counts ->
      valid_counts (g :: groups) p counts).
    { induction cands as [|k cands IHc]; intros Hsub; [discriminate|].
      destruct (match_groups groups (drop k p)) as [counts'|] eqn:Hm.
      - intros [= <-]. simpl. split; [apply Hsub; left; reflexivity|].
        apply IH. exact Hm.
      - apply IHc. intros k' Hk'. apply Hsub. right. exact Hk'. }
    apply Hgen. auto.
Qed.

Lemma match_slices_valid i actions p :
  exists j,
    valid_counts (map nargs (take j actions)) p (match_slices i actions p).
Proof.
  induction i as [|i IH]; simpl.
  - exists 0. rewrite take_0. exact I.
  - destruct (match_groups (map nargs (take (S i) actions)) p)
      as [counts|] eqn:Hm; [|exact IH].
    exists (S i). apply match_groups_valid. exact Hm.
Qed.

Lemma next_option_dashes ts before o after :
  next_option ts = Some (before, o, after) -> dashes after <= dashes ts.
Proof.
  revert before o after.
  induction ts as [|x ts IH]; intros before o after H; [discriminate|].
  destruct x; simpl in H.
  1,2: destruct (next_option ts) as [[[b o'] a]|]; [|discriminate];
       injection H as <- <- <-; specialize (IH _ _ _ eq_refl); simpl; lia.
  injection H as <- <- <-. simpl. lia.
Qed.

(** *** An invariant of the namespace and of the positionals still to be
    consumed

    [Inv pending ns] is kept by the whole of [_parse_known_args] as soon as
    taking the first pending action keeps it, whatever slice of the pattern
    the matcher hands to that action. *)

Variable Inv : list Action -> Namespace -> Prop.

Hypothesis Inv_step : forall a rest ns p k ns',
  Inv (a :: rest) ns ->
  dashes p <= 1 ->
  In k (group_candidates (nargs a) p) ->
  take_action int_of_str call a (map arg_string (take k p)) ns = Done ns' ->
  Inv rest ns'.

Lemma take_actions_inv actions : forall counts j ts ns ts' ns',
  valid_counts (map nargs (take j actions)) ts counts ->
  dashes ts <= 1 ->
  Inv actions ns ->
  take_actions int_of_str call actions counts ts ns = Done (ts', ns') ->
  Inv (drop (length counts) actions) ns' /\ dashes ts' <= 1
  /\ length ts' <= length ts.
Proof.
  induction actions as [|a actions IH]; intros counts j ts ns ts' ns' Hv Hd Hi.
  - rewrite take_nil in Hv. destruct counts; [|contradiction].
    simpl. intros [= <- <-]. auto.
  - destruct j as [|j]; simpl in Hv.
    + destruct counts; [|contradiction]. simpl. intros [= <- <-]. auto.
    + destruct counts as [|k counts]; [contradiction|].
      destruct Hv as [Hk Hv]. simpl.
      destruct (take_action int_of_str call a (map arg_string (take k ts)) ns)
        as [ns1| |e|e] eqn:Ht; simpl; try discriminate.
      intros H.
      destruct (IH counts j (drop k ts) ns1 ts' ns' Hv) as (H1 & H2 & H3); auto.
      * pose proof (dashes_drop k ts). lia.
      * eapply Inv_step; eauto.
      * repeat split; auto. rewrite length_drop in H3. lia.
Qed.

Lemma consume_positionals_inv ts pending ns ts' pending' ns' :
  dashes ts <= 1 ->
  Inv pending ns ->
  consume_positionals int_of_str call ts pending ns
    = Done (ts', pending', ns') ->
  Inv pending' ns' /\ dashes ts' <= 1 /\ length ts' <= length ts.
Proof.
  intros Hd Hi. unfold consume_positionals, _match_arguments_partial.
  destruct (match_slices_valid (length pending) pending ts) as [j Hv].
  destruct (take_actions int_of_str call pending
              (match_slices (length pending) pending ts) ts ns)
    as [[ts1 ns1]| |e|e] eqn:Ht; simpl; try discriminate.
  intros [= <- <- <-].
  eapply take_actions_inv; eauto.
Qed.

Lemma loop_step_inv st st' :
  loop_inv Inv st -> loop_step int_of_str call st = Done (Some st') ->
  loop_inv Inv st'.
Proof.
  intros [Hd Hi]. unfold loop_step.
  destruct (next_option (toks st)) as [[[before [s t]] rest]|] eqn:Hn;
    [|discriminate].
  pose proof (next_option_dashes _ _ _ _ Hn) as Hrest.
  destruct before as [|b before].
  - destruct (consume_optional s t (extras st)); simpl; try discriminate.
    intros [= <-]. split; simpl; [lia|assumption].
  - destruct (consume_positionals int_of_str call (toks st) (pending st)
                (namespace st))
      as [[[ts' pending'] ns']| | |] eqn:Hc; simpl; try discriminate.
    destruct (consume_positionals_inv _ _ _ _ _ _ Hd Hi Hc) as (H1 & H2 & H3).
    destruct (length ts' <? length (toks st))%nat.
    + intros [= <-]. split; simpl; assumption.
    + destruct (consume_optional s t _); simpl; try discriminate.
      intros [= <-]. split; simpl; [lia|assumption].
Qed.

Lemma run_loop_inv st st' :
  loop_inv Inv st -> run_loop int_of_str call st = Done st' ->
  loop_inv Inv st'.
Proof.
  remember (length (toks st)) as n eqn:Hn.
  revert st Hn. induction n as [n IH] using lt_wf_ind.
  intros st Hn Hinv. rewrite run_loop_step.
  destruct (loop_step int_of_str call st) as [[st1|]| |e|e] eqn:Hs;
    try discriminate.
  - intros H. apply (IH (length (toks st1))) with (st := st1); auto.
    + subst n. apply (loop_step_decreases _ _ _ _ Hs).
    + eapply loop_step_inv; eauto.
  - intros [= <-]. exact Hinv.
Qed.

Lemma _parse_known_args_inv arg_strings positionals ns ns' extras :
  Inv positionals ns ->
  _parse_known_args int_of_str call arg_strings positionals ns
    = Done (ns', extras) ->
  Inv [] ns'.
Proof.
  intros Hi. unfold _parse_known_args.
  destruct (classify arg_strings) as [ts| |e|e] eqn:Hc; simpl;
    try discriminate.
  destruct (run_loop int_of_str call _) as [st| |e|e] eqn:Hr; simpl;
    try discriminate.
  apply run_loop_inv in Hr; [|split; simpl; eauto using classify_dashes].
  destruct Hr as [Hd Hp].
  destruct (consume_positionals int_of_str call (toks st) (pending st)
              (namespace st))
    as [[[ts' pending'] ns1]| |e|e] eqn:Hcp; simpl; try discriminate.
  destruct (consume_positionals_inv _ _ _ _ _ _ Hd Hp Hcp) as (H1 & _).
  destruct pending'; [|discriminate].
  intros [= <- _]. exact H1.
Qed.

End LoopFacts.

(** ** The parsers of the client *)

Section ParserFacts.

Import argparse.

Variable int_of_str : string -> option Z.

(** A property of the namespace holds of what a sub-parser returns when its
    defaults establish it and every one of its positionals keeps it. *)
Lemma sub_parser_inv (p : ArgumentParser) (J : Namespace -> Prop) :
  J (add_defaults p ∅) ->
  (forall a ns q k ns',
     In a (positionals p) -> J ns -> dashes q <= 1 ->
     In k (group_candidates (nargs a) q) ->
     take_action int_of_str store a (map arg_string (take k q)) ns = Done ns' ->
     J ns') ->
  (forall ns, J ns -> J (delete _UNRECOGNIZED_ARGS_ATTR ns)) ->
  forall args ns extras,
    parse_known_args_sub int_of_str p args = Done (ns, extras) -> J ns.
Proof.
  intros H0 Hstep Hdel args ns extras. unfold parse_known_args_sub.
  destruct (_parse_known_args int_of_str store args (positionals p)
              (add_defaults p ∅)) as [[ns1 extras1]| |e|e] eqn:Hp; simpl;
    try discriminate.
  assert (HJ : J ns1).
  { refine (proj2 (_parse_known_args_inv int_of_str store
             (fun pending ns =>
                (exists pre, positionals p = pre ++ pending) /\ J ns)
             _ _ _ _ _ _ _ Hp)).
    - intros a rest ns0 q k ns' [[pre Hpre] HJ] Hd Hk Ht. split.
      + exists (pre ++ [a]). rewrite <- app_assoc. exact Hpre.
      + eapply Hstep; eauto. rewrite Hpre. apply in_or_app. right. left.
        reflexivity.
    - split; [exists []; reflexivity | exact H0]. }
  unfold pop_unrecognized. simpl.
  destruct (ns1 !! _UNRECOGNIZED_ARGS_ATTR) as [[| |w|l]|];
    try discriminate; [|destruct (strings_of l); try discriminate|];
    intros [= <- _]; auto.
Qed.

(** What [store] does to the other attributes. *)
Lemma take_action_store_other a args ns ns' k :
  take_action int_of_str store a args ns = Done ns' ->
  dest a <> k -> ns' !! k = ns !! k.
Proof.
  unfold take_action, store.
  destruct (_get_values int_of_str a args) as [v| |e|e]; simpl;
    try discriminate.
  intros [= <-] Hne. apply lookup_insert_ne. exact Hne.
Qed.

Lemma take_action_store_dest a args ns ns' :
  take_action int_of_str store a args ns = Done ns' ->
  exists v, _get_values int_of_str a args = Done v
            /\ ns' !! dest a = Some v.
Proof.
  unfold take_action, store.
  destruct (_get_values int_of_str a args) as [v| |e|e]; simpl;
    try discriminate.
  intros [= <-]. exists v. split; [reflexivity|]. apply lookup_insert_eq.
Qed.

(** The slice that the matcher hands to a plain or optional positional
    holds one word at most once the separator is taken out. *)
Lemma slice_one_word g q k :
  g <> NargsParser -> dashes q <= 1 -> In k (group_candidates g q) ->
  length (remove_first "--" (map arg_string (take k q))) <= 1.
Proof.
  intros Hg Hd Hk. unfold group_candidates in Hk.
  destruct q as [|x [|y [|z r]]]; destruct g; try contradiction;
    try destruct x; try destruct y; try destruct z;
    simpl in Hd; try lia; simpl in Hk;
    repeat (destruct Hk as [<-|Hk]; [cbn -[String.eqb];
      repeat match goal with
             | |- context [String.eqb ?a ?b] =>
                 is_var b; destruct (String.eqb a b)
             end; cbn; lia|]);
    try contradiction.
Qed.

Lemma sub_parser_action n p args ns extras :
  In (n, p) subparsers ->
  parse_known_args_sub int_of_str p args = Done (ns, extras) ->
  ns !! "action" = Some (VStr n).
Proof.
  intros Hin.
  apply (sub_parser_inv p (fun ns => ns !! "action" = Some (VStr n))).
  - simpl in Hin.
    destruct Hin as [[= <- <-]|[[= <- <-]|[[= <- <-]|[]]]];
      vm_compute; reflexivity.
  - intros a ns0 q k ns' Ha HJ _ _ Ht.
    rewrite (take_action_store_other _ _ _ _ "action" Ht); [exact HJ|].
    simpl in Hin.
    destruct Hin as [[= <- <-]|[[= <- <-]|[[= <- <-]|[]]]]; simpl in Ha;
      repeat (destruct Ha as [<-|Ha]; [discriminate|]); contradiction.
  - intros ns0 HJ. rewrite lookup_delete_ne; [exact HJ|discriminate].
Qed.

Lemma get_values_format args v :
  length (remove_first "--" args) <= 1 ->
  _get_values int_of_str format_arg args = Done v ->
  v = VStr "arf" \/ v = VStr "html".
Proof.
  intros Hlen. unfold _get_values. cbn [nargs default format_arg].
  destruct (remove_first "--" args) as [|w [|w' l]]; simpl in Hlen; [| |lia].
  - vm_compute. intros [= <-]. left. reflexivity.
  - unfold _get_value, _check_value; cbn -[String.eqb].
    destruct (String.eqb w "html") eqn:Hh; cbn -[String.eqb].
    + apply String.eqb_eq in Hh as ->. intros [= <-]. right. reflexivity.
    + destruct (String.eqb w "arf") eqn:Ha; cbn; [|discriminate].
      apply String.eqb_eq in Ha as ->. intros [= <-]. left. reflexivity.
Qed.

Lemma result_parser_format args ns extras :
  parse_known_args_sub int_of_str result_parser args = Done (ns, extras) ->
  format_ok ns.
Proof.
  apply (sub_parser_inv result_parser format_ok).
  - left. vm_compute. reflexivity.
  - intros a ns0 q k ns' Ha HJ Hd Hk Ht. simpl in Ha.
    destruct Ha as [<-|[<-|[<-|[]]]].
    + unfold format_ok.
      rewrite (take_action_store_other _ _ _ _ "format" Ht); [exact HJ|].
      discriminate.
    + unfold format_ok.
      rewrite (take_action_store_other _ _ _ _ "format" Ht); [exact HJ|].
      discriminate.
    + destruct (take_action_store_dest _ _ _ _ Ht) as (v & Hv & Hl).
      apply get_values_format in Hv.
      * unfold format_ok. cbn [dest format_arg] in Hl. rewrite Hl.
        destruct Hv as [->| ->]; auto.
      * eapply slice_one_word; eauto. discriminate.
  - intros ns0 HJ. unfold format_ok.
    rewrite lookup_delete_ne; [exact HJ|discriminate].
Qed.

Lemma find_parser_In name parsers p :
  find_parser name parsers = Some p -> In (name, p) parsers.
Proof.
  induction parsers as [|[n q] rest IH]; simpl; [discriminate|].
  destruct (find_parser name rest) as [q'|].
  - intros [= <-]. right. apply IH. reflexivity.
  - destruct (String.eqb name n) eqn:Hn; [|discriminate].
    apply String.eqb_eq in Hn as ->. intros [= <-]. left. reflexivity.
Qed.

Lemma sub_parser_ok n p args ns extras :
  In (n, p) subparsers ->
  parse_known_args_sub int_of_str p args = Done (ns, extras) ->
  action_ok ns.
Proof.
  intros Hin Hp. pose proof (sub_parser_action _ _ _ _ _ Hin Hp) as Ha.
  simpl in Hin. unfold action_ok.
  destruct Hin as [[= <- <-]|[[= <- <-]|[[= <- <-]|[]]]]; auto.
  right. right. split; [exact Ha|]. eapply result_parser_format; eauto.
Qed.

Lemma action_ok_agree ns ns' :
  ns' !! "action" = ns !! "action" -> ns' !! "format" = ns !! "format" ->
  action_ok ns -> action_ok ns'.
Proof.
  unfold action_ok, format_ok. intros -> ->. tauto.
Qed.

(** Whatever the command line, the sub-command action leaves
    a namespace that names one of the three commands. *)
Lemma subparsers_call_ok a ns values ns' :
  subparsers_call int_of_str subparsers a ns values = Done ns' ->
  action_ok ns'.
Proof.
  unfold subparsers_call.
  destruct values as [| | |[|[| |parser_name|] arg_values]]; try discriminate.
  destruct (find_parser parser_name subparsers) as [parser|] eqn:Hf;
    [|discriminate].
  apply find_parser_In in Hf.
  destruct (strings_of arg_values) as [arg_strings|]; [|discriminate].
  destruct (parse_known_args_sub int_of_str parser arg_strings)
    as [[subns extras]| |e|e] eqn:Hp; simpl; try discriminate.
  pose proof (sub_parser_ok _ _ _ _ _ Hf Hp) as Hok.
  set (ns0 := if String.eqb (dest a) SUPPRESS then ns
              else <[dest a := VStr parser_name]> ns).
  assert (Hu : action_ok (subns ∪ ns0)).
  { destruct Hok as [H|[H|[H [Hfm|Hfm]]]].
    - left. apply lookup_union_Some_l. exact H.
    - right. left. apply lookup_union_Some_l. exact H.
    - right. right. split; [|left]; apply lookup_union_Some_l; assumption.
    - right. right. split; [|right]; apply lookup_union_Some_l; assumption. }
  destruct extras; [intros [= <-]; exact Hu|].
  destruct ((subns ∪ ns0) !! _UNRECOGNIZED_ARGS_ATTR) as [[| | |old]|];
    try discriminate; intros [= <-];
    (eapply action_ok_agree; [| |exact Hu];
     apply lookup_insert_ne; discriminate).
Qed.

(** Every command line that [parse_args] accepts names one of the three
    commands, and a result command carries one of the two formats. *)
Lemma parse_args_ok argv ns :
  parse_args int_of_str subparsers argv = Done ns -> action_ok ns.
Proof.
  unfold parse_args, parse_known_args.
  destruct (_parse_known_args int_of_str
              (subparsers_call int_of_str subparsers) argv
              [subparsers_action subparsers] ∅)
    as [[ns1 extras1]| |e|e] eqn:Hp; simpl; try discriminate.
  assert (Hok : action_ok ns1).
  { assert (Hinv : [] = [subparsers_action subparsers]
                   \/ ([] = @nil Action /\ action_ok ns1)).
    { refine (_parse_known_args_inv int_of_str
                (subparsers_call int_of_str subparsers)
                (fun pending ns =>
                   pending = [subparsers_action subparsers]
                   \/ (pending = [] /\ action_ok ns))
                _ _ _ _ _ _ _ Hp).
      - intros a rest ns0 q k ns' [[= -> ->]|[[=] _]] _ _ Ht. right.
        split; [reflexivity|].
        unfold take_action in Ht.
        destruct (_get_values int_of_str (subparsers_action subparsers) _)
          as [v| |e|e]; simpl in Ht; try discriminate.
        eapply subparsers_call_ok; eauto.
      - left. reflexivity. }
    destruct Hinv as [[=]|[_ H]]. exact H. }
  assert (Hdel : action_ok (delete _UNRECOGNIZED_ARGS_ATTR ns1))
    by (eapply action_ok_agree; [| |exact Hok];
        apply lookup_delete_ne; discriminate).
  unfold pop_unrecognized. simpl.
  destruct (ns1 !! _UNRECOGNIZED_ARGS_ATTR) as [[| |w|l]|]; simpl;
    try discriminate.
  - destruct (extras1 ++ _); [|discriminate]. intros [= <-]. exact Hdel.
  - destruct (strings_of l) as [ws|]; simpl; [|discriminate].
    destruct (extras1 ++ ws); [|discriminate]. intros [= <-]. exact Hdel.
  - destruct extras1; [|discriminate]. intros [= <-]. exact Hok.
Qed.

End ParserFacts.

(** ** The commands *)

Section CommandFacts.

Context {S : Type}.

Lemma dispatch_task (d : option (Interface S)) ns :
  ns !! "action" = Some (VStr "task") -> dispatch d ns = cli_task d ns.
Proof. intros H. unfold dispatch. rewrite H. reflexivity. Qed.

Lemma dispatch_status (d : option (Interface S)) ns :
  ns !! "action" = Some (VStr "status") -> dispatch d ns = cli_status d ns.
Proof. intros H. unfold dispatch. rewrite H. reflexivity. Qed.

Lemma dispatch_result (d : option (Interface S)) ns :
  ns !! "action" = Some (VStr "result") -> dispatch d ns = cli_results d ns.
Proof. intros H. unfold dispatch. rewrite H. reflexivity. Qed.

(** [task <id>]: one call, then the two lines, unless the call fails. *)
Lemma cli_task_one (iface : Interface S) ns task_id s :
  ns !! "task_id" = Some (VInt task_id) ->
  cli_task (Some iface) ns s =
    match GetTaskTitle iface task_id s with
    | (Reply title, s') =>
        (Ok tt, s',
         [EvCall (CallGetTaskTitle task_id);
          EvPrint ("ID:" +:+ TAB +:+ string_of_Z task_id);
          EvPrint ("Title:" +:+ TAB +:+ title)])
    | (Fault f, s') =>
        (Raise (DBusException f), s', [EvCall (CallGetTaskTitle task_id)])
    end.
Proof.
  intros H. unfold cli_task, getattr, bind, ret. rewrite H. simpl.
  unfold remote. destruct (GetTaskTitle iface task_id s) as [[title|f] s'];
    reflexivity.
Qed.

(** [task]: the list of ids, then the loop over them. *)
Lemma cli_task_all (iface : Interface S) ns s :
  ns !! "task_id" = Some VNone ->
  cli_task (Some iface) ns s =
    match ListTaskIDs iface s with
    | (Reply ids, s1) =>
        let '(r, s2, tr) := for_in ids (summary_body iface) s1 in
        (r, s2, EvCall CallListTaskIDs :: tr)
    | (Fault f, s1) => (Raise (DBusException f), s1, [EvCall CallListTaskIDs])
    end.
Proof.
  intros H. unfold cli_task, getattr. rewrite H, bind_ret. simpl.
  unfold bind at 1. unfold call_ListTaskIDs, remote.
  destruct (ListTaskIDs iface s) as [[ids|f] s1]; simpl; [|reflexivity].
  match goal with
  | |- context [for_in ids ?body s1] =>
      change (for_in ids body s1) with (for_in ids (summary_body iface) s1)
  end.
  destruct (for_in ids (summary_body iface) s1) as [[r s2] tr]. reflexivity.
Qed.

Lemma summary_body_run (iface : Interface S) task_id s :
  summary_body iface task_id s =
    match GetTaskTitle iface task_id s with
    | (Reply title, s') =>
        (Ok tt, s',
         [EvCall (CallGetTaskTitle task_id);
          EvPrint (summary_line task_id title)])
    | (Fault f, s') =>
        (Raise (DBusException f), s', [EvCall (CallGetTaskTitle task_id)])
    end.
Proof.
  unfold summary_body, bind, call_GetTaskTitle, remote.
  destruct (GetTaskTitle iface task_id s) as [[title|f] s']; reflexivity.
Qed.

(** When every title is there, the loop asks for each id once, in order,
    and prints its line right after. *)
Lemma for_in_summary (iface : Interface S) ids : forall s titles s',
  titles_of iface ids s = (Some titles, s') ->
  for_in ids (summary_body iface) s = (Ok tt, s', summary_events ids titles).
Proof.
  induction ids as [|id ids IH]; intros s titles s'; simpl.
  - intros [= <- <-]. reflexivity.
  - unfold bind. rewrite summary_body_run.
    destruct (GetTaskTitle iface id s) as [[title|f] s1]; [|discriminate].
    destruct (titles_of iface ids s1) as [[titles1|] s2] eqn:Ht;
      [|discriminate].
    intros [= <- <-]. rewrite (IH _ _ _ Ht). reflexivity.
Qed.

(** In any case the loop only asks for ids of the list, in order, each
    once, and it stops at the first fault. *)
Lemma for_in_calls (iface : Interface S) ids : forall s,
  exists k,
    calls (snd (for_in ids (summary_body iface) s))
    = map CallGetTaskTitle (take k ids).
Proof.
  induction ids as [|id ids IH]; intros s; simpl.
  - exists 0. reflexivity.
  - unfold bind. rewrite summary_body_run.
    destruct (GetTaskTitle iface id s) as [[title|f] s1].
    + destruct (IH s1) as [k Hk].
      destruct (for_in ids (summary_body iface) s1) as [[r s2] tr].
      exists (Datatypes.S k). simpl in *. rewrite Hk. reflexivity.
    + exists 1. simpl. rewrite ?take_0. reflexivity.
Qed.

Lemma for_in_never_runtime_error (iface : Interface S) ids : forall s unknown,
  fst (fst (for_in ids (summary_body iface) s)) <> Raise (RuntimeError unknown).
Proof.
  induction ids as [|id ids IH]; intros s unknown; simpl; [discriminate|].
  unfold bind. rewrite summary_body_run.
  destruct (GetTaskTitle iface id s) as [[title|f] s1]; [|discriminate].
  specialize (IH s1 unknown).
  destruct (for_in ids (summary_body iface) s1) as [[r s2] tr]. exact IH.
Qed.

Lemma titles_of_length (iface : Interface S) ids : forall s titles s',
  titles_of iface ids s = (Some titles, s') -> length titles = length ids.
Proof.
  induction ids as [|id ids IH]; intros s titles s'; simpl.
  - intros [= <- _]. reflexivity.
  - destruct (GetTaskTitle iface id s) as [[title|f] s1]; [|discriminate].
    destruct (titles_of iface ids s1) as [[titles1|] s2] eqn:Ht;
      [|discriminate].
    intros [= <- _]. simpl. f_equal. eapply IH; eauto.
Qed.

Lemma summary_events_calls ids : forall titles,
  length titles = length ids ->
  calls (summary_events ids titles) = map CallGetTaskTitle ids.
Proof.
  induction ids as [|id ids IH]; intros [|title titles]; simpl;
    try discriminate; auto.
  intros [= H]. rewrite IH; auto.
Qed.

Lemma summary_events_printed ids : forall titles,
  printed (summary_events ids titles) = zip_with summary_line ids titles.
Proof.
  induction ids as [|id ids IH]; intros [|title titles]; simpl; auto.
  rewrite IH. reflexivity.
Qed.

End CommandFacts.

Lemma connection_silent {S} (host : Host S) s r s0 tr0 :
  get_dbus_interface host s = (r, s0, tr0) ->
  s0 = s /\ printed tr0 = [] /\ calls tr0 = [] /\ ~ In EvParseArgs tr0
  /\ exists rest, tr0 = EvThreadsInit :: EvSessionBus :: rest.
Proof.
  destruct (get_dbus_interface_trace host s) as (r' & rest & Heq & Hc).
  rewrite Heq. intros [= <- <- <-].
  destruct (connection_events_silent _ Hc) as (Hp & Hcalls & Hn).
  repeat split; simpl; auto.
  - intros [H|[H|H]]; try discriminate. contradiction.
  - exists rest. reflexivity.
Qed.

(** ** Command lines of plain words *)

Section PlainWords.

Import argparse.

Variable int_of_str : string -> option Z.

Lemma plain_parse_optional s : plain s -> _parse_optional s = Done None.
Proof.
  unfold plain, _parse_optional. intros H.
  destruct (String.eqb s ""); [reflexivity|]. rewrite H. reflexivity.
Qed.

Lemma plain_not_separator s :
  plain s -> String.eqb s "--" = false /\ String.eqb "--" s = false.
Proof.
  unfold plain. intros H.
  split; apply String.eqb_neq; intros E; subst s; discriminate H.
Qed.

Lemma classify_plain ws :
  Forall plain ws -> classify ws = Done (map TokA ws).
Proof.
  induction 1 as [|w ws Hw Hws IH]; [reflexivity|].
  simpl. rewrite (proj1 (plain_not_separator _ Hw)).
  rewrite (plain_parse_optional _ Hw), IH. reflexivity.
Qed.

Lemma run_loop_no_option call st :
  next_option (toks st) = None -> run_loop int_of_str call st = Done st.
Proof.
  intros H. rewrite run_loop_step. unfold loop_step. rewrite H. reflexivity.
Qed.

Lemma remove_first_plain w : plain w -> remove_first "--" [w] = [w].
Proof.
  intros H. unfold remove_first. rewrite (proj2 (plain_not_separator _ H)). reflexivity.
Qed.

Lemma take_int_word a w ns :
  plain w -> type a = TypeInt -> nargs a <> NargsParser -> choices a = None ->
  take_action int_of_str store a [w] ns =
    match int_of_str w with
    | Some z => Done (<[dest a := VInt z]> ns)
    | None => Error (InvalidValue w)
    end.
Proof.
  intros Hw Ht Hn Hc. unfold take_action, _get_values.
  destruct (nargs a) eqn:E; try contradiction;
    rewrite (remove_first_plain _ Hw); unfold _get_value, _check_value;
    rewrite Ht, Hc; destruct (int_of_str w); reflexivity.
Qed.

Lemma sub_result_3 t r f :
  plain t -> plain r -> plain f ->
  parse_known_args_sub int_of_str result_parser [t; r; f] =
    match int_of_str t with
    | None => Error (InvalidValue t)
    | Some a =>
      match int_of_str r with
      | None => Error (InvalidValue r)
      | Some b =>
        if in_strings f ["html"; "arf"] then
          Done (result_namespace (VInt a) (VInt b) (VStr f), [])
        else Error (InvalidChoice (VStr f))
      end
    end.
Proof.
  intros Ht Hr Hf. unfold parse_known_args_sub, _parse_known_args.
  rewrite classify_plain by (repeat constructor; assumption).
  cbn [obind map].
  rewrite run_loop_no_option by reflexivity.
  cbn [obind toks pending namespace extras].
  unfold consume_positionals.
  change (_match_arguments_partial (positionals result_parser)
            [TokA t; TokA r; TokA f]) with [1; 1; 1].
  change (positionals result_parser) with [task_id_arg; result_id_arg; format_arg].
  cbn [take_actions take drop map arg_string length].
  rewrite take_int_word by (auto; discriminate).
  destruct (int_of_str t) as [a|]; [|reflexivity].
  cbn [obind].
  rewrite take_int_word by (auto; discriminate).
  destruct (int_of_str r) as [b|]; [|reflexivity].
  cbn [obind].
  unfold take_action, _get_values. cbn [nargs format_arg].
  rewrite (remove_first_plain _ Hf).
  unfold _get_value, _check_value. cbn [type choices format_arg obind existsb value_eqb].
  unfold in_strings. cbn [existsb].
  destruct (String.eqb f "html" || (String.eqb f "arf" || false)); [|reflexivity].
  cbn [obind store dest format_arg result_id_arg task_id_arg fst snd].
  unfold pop_unrecognized, result_namespace. cbn [fst snd].
  rewrite !lookup_insert_ne by discriminate.
  replace (add_defaults result_parser ∅ !! _UNRECOGNIZED_ARGS_ATTR)
    with (@None value) by (vm_compute; reflexivity).
  reflexivity.
Qed.

Lemma sub_result_2 t r :
  plain t -> plain r ->
  parse_known_args_sub int_of_str result_parser [t; r] =
    match int_of_str t with
    | None => Error (InvalidValue t)
    | Some a =>
      match int_of_str r with
      | None => Error (InvalidValue r)
      | Some b => Done (result_namespace (VInt a) (VInt b) (VStr "arf"), [])
      end
    end.
Proof.
  intros Ht Hr. unfold parse_known_args_sub, _parse_known_args.
  rewrite classify_plain by (repeat constructor; assumption).
  cbn [obind map].
  rewrite run_loop_no_option by reflexivity.
  cbn [obind toks pending namespace extras].
  unfold consume_positionals.
  change (_match_arguments_partial (positionals result_parser)
            [TokA t; TokA r]) with [1; 1; 0].
  change (positionals result_parser)
    with [task_id_arg; result_id_arg; format_arg].
  cbn [take_actions take drop map arg_string length].
  rewrite take_int_word by (auto; discriminate).
  destruct (int_of_str t) as [a|]; [|reflexivity].
  cbn [obind].
  rewrite take_int_word by (auto; discriminate).
  destruct (int_of_str r) as [b|]; [|reflexivity].
  cbn [obind].
  change (take_action int_of_str store format_arg [])
    with (fun ns : Namespace => @Done Namespace (<["format" := VStr "arf"]> ns)).
  cbn [obind store dest format_arg result_id_arg task_id_arg fst snd].
  unfold pop_unrecognized. cbn [fst snd].
  rewrite !lookup_insert_ne by discriminate.
  replace (add_defaults result_parser ∅ !! _UNRECOGNIZED_ARGS_ATTR)
    with (@None value) by (vm_compute; reflexivity).
  reflexivity.
Qed.

Lemma sub_result_1 t :
  plain t ->
  parse_known_args_sub int_of_str result_parser [t] =
    match int_of_str t with
    | None => Error (InvalidValue t)
    | Some a => Done (result_namespace (VInt a) VNone (VStr "arf"), [])
    end.
Proof.
  intros Ht. unfold parse_known_args_sub, _parse_known_args.
  rewrite classify_plain by (repeat constructor; assumption).
  cbn [obind map].
  rewrite run_loop_no_option by reflexivity.
  cbn [obind toks pending namespace extras].
  unfold consume_positionals.
  change (_match_arguments_partial (positionals result_parser) [TokA t])
    with [1; 0; 0].
  change (positionals result_parser)
    with [task_id_arg; result_id_arg; format_arg].
  cbn [take_actions take drop map arg_string length].
  rewrite take_int_word by (auto; discriminate).
  destruct (int_of_str t) as [a|]; [|reflexivity].
  cbn [obind].
  change (take_action int_of_str store result_id_arg [])
    with (fun ns : Namespace => @Done Namespace (<["result_id" := VNone]> ns)).
  change (take_action int_of_str store format_arg [])
    with (fun ns : Namespace => @Done Namespace (<["format" := VStr "arf"]> ns)).
  cbn [obind store dest format_arg result_id_arg task_id_arg fst snd].
  unfold pop_unrecognized. cbn [fst snd].
  rewrite !lookup_insert_ne by discriminate.
  replace (add_defaults result_parser ∅ !! _UNRECOGNIZED_ARGS_ATTR)
    with (@None value) by (vm_compute; reflexivity).
  reflexivity.
Qed.

Lemma next_option_args ws : next_option (map TokA ws) = None.
Proof. induction ws as [|w ws IH]; simpl; [|rewrite IH]; reflexivity. Qed.

Lemma get_each_str a ws :
  type a = TypeStr -> get_each int_of_str a ws = Done (map VStr ws).
Proof.
  intros Ht. induction ws as [|w ws IH]; simpl; [reflexivity|].
  unfold _get_value. rewrite Ht, IH. reflexivity.
Qed.

Lemma strings_of_strings ws : strings_of (map VStr ws) = Some ws.
Proof. induction ws as [|w ws IH]; simpl; [|rewrite IH]; reflexivity. Qed.

Lemma match_subcommand w q :
  _match_arguments_partial [subparsers_action subparsers] (TokA w :: q)
  = [Datatypes.S (length q)].
Proof.
  unfold _match_arguments_partial. simpl. destruct (length q); reflexivity.
Qed.

(** A command line of plain words that begins with the name of a
    sub-command is handed as a whole to the sub-command action. *)
Lemma parse_args_subcommand name ws :
  plain name -> Forall plain ws ->
  existsb (value_eqb (VStr name))
    (map (fun np => VStr (fst np)) subparsers) = true ->
  parse_args int_of_str subparsers (name :: ws) =
    (ns' <-- subparsers_call int_of_str subparsers
               (subparsers_action subparsers) ∅
               (VList (map VStr (name :: ws))) ;;;
     r <-- pop_unrecognized (ns', []) ;;;
     match snd r with
     | [] => Done (fst r)
     | argv => Error (UnrecognizedArguments argv)
     end).
Proof.
  intros Hn Hws Hc. unfold parse_args, parse_known_args, _parse_known_args.
  rewrite classify_plain by (constructor; assumption).
  cbn [obind].
  rewrite run_loop_no_option by apply next_option_args.
  cbn [obind toks pending namespace extras].
  unfold consume_positionals. cbn [map]. rewrite match_subcommand.
  cbn [take_actions length take drop].
  rewrite firstn_all, skipn_all.
  unfold take_action, _get_values. cbn [nargs subparsers_action].
  rewrite get_each_str by reflexivity.
  cbn [obind map arg_string]. rewrite map_map. cbn [arg_string].
  rewrite map_id.
  unfold _check_value. cbn [choices subparsers_action]. rewrite Hc.
  cbn [obind].
  assert (Hv : match ws with
               | [] => Done (VList (VStr name :: map VStr ws))
               | _ :: _ => Done (VList (VStr name :: map VStr ws))
               end = Done (VList (VStr name :: map VStr ws)))
    by (destruct ws; reflexivity).
  rewrite Hv. cbn [obind].
  destruct (subparsers_call int_of_str subparsers _ ∅ _) as [ns'| |e|e];
    reflexivity.
Qed.

Lemma parse_args_result_done ws subns :
  Forall plain ws ->
  parse_known_args_sub int_of_str result_parser ws = Done (subns, []) ->
  subns !! _UNRECOGNIZED_ARGS_ATTR = None ->
  parse_args int_of_str subparsers ("result" :: ws) = Done subns.
Proof.
  intros Hws Hsub Hu.
  rewrite parse_args_subcommand by (auto; reflexivity).
  unfold subparsers_call. cbn [map].
  change (find_parser "result" subparsers) with (Some result_parser).
  rewrite strings_of_strings, Hsub.
  cbn [obind].
  change (String.eqb (dest (subparsers_action subparsers)) SUPPRESS) with true.
  cbv iota. rewrite (right_id_L ∅ (∪)).
  unfold pop_unrecognized. cbn [fst snd]. rewrite Hu. reflexivity.
Qed.

Lemma parse_args_result_error ws e :
  Forall plain ws ->
  parse_known_args_sub int_of_str result_parser ws = Error e ->
  parse_args int_of_str subparsers ("result" :: ws) = Error e.
Proof.
  intros Hws Hsub.
  rewrite parse_args_subcommand by (auto; reflexivity).
  unfold subparsers_call. cbn [map].
  change (find_parser "result" subparsers) with (Some result_parser).
  rewrite strings_of_strings, Hsub. reflexivity.
Qed.

End PlainWords.

(** What a run looks like when the connection attempt gives nothing. *)
Lemma no_interface_run {S} int_of_str (host : Host S) argv s s0 tr0 :
  get_dbus_interface host s = (Ok None, s0, tr0) ->
  let '(r, s', tr) := main int_of_str host argv s in
  r = Raise (SystemExit 1) /\ exit_status r = 1%Z /\ s' = s
  /\ tr = tr0
          ++ [EvPrint
                "Error: Failed to connect to SCAP Client dbus interface."]
  /\ printed tr
     = ["Error: Failed to connect to SCAP Client dbus interface."]
  /\ calls tr = [] /\ ~ In EvParseArgs tr.
Proof.
  intros Hc. rewrite (main_no_interface _ _ _ _ _ _ Hc).
  destruct (connection_silent _ _ _ _ _ Hc) as (Hs & Hpr & Hcl & Hn & _).
  rewrite printed_app, calls_app, Hpr, Hcl. repeat split; auto.
  intros Hin. apply in_app_or in Hin as [Hin|[Hin|[]]]; [auto|discriminate].
Qed.

Lemma connection_fault {S} (host : Host S) s e s0 tr0 :
  get_dbus_interface host s = (Raise e, s0, tr0) ->
  exists f, e = DBusException f.
Proof.
  unfold get_dbus_interface, bind, emit, local, ret.
  destruct (dbus_SessionBus host) as [[bus|]|f]; simpl.
  - destruct (get_object bus (BUS_NAME host) (OBJECT_PATH host))
      as [[obj|]|f]; simpl; try discriminate.
    intros [= <- _ _]. exists f. reflexivity.
  - discriminate.
  - intros [= <- _ _]. exists f. reflexivity.
Qed.

Lemma cli_task_never_runtime_error {S} (iface : Interface S) ns s unknown :
  fst (fst (cli_task (Some iface) ns s)) <> Raise (RuntimeError unknown).
Proof.
  destruct (ns !! "task_id") as [v|] eqn:Hv.
  - destruct v as [|z|w|l].
    + rewrite (cli_task_all _ _ _ Hv).
      destruct (ListTaskIDs iface s) as [[ids|f] s1]; [|discriminate].
      pose proof (for_in_never_runtime_error iface ids s1 unknown) as H.
      destruct (for_in ids (summary_body iface) s1) as [[r s2] tr]. exact H.
    + rewrite (cli_task_one _ _ _ _ Hv).
      destruct (GetTaskTitle iface z s) as [[title|f] s1]; discriminate.
    + unfold cli_task, getattr, bind, ret. rewrite Hv. simpl. discriminate.
    + unfold cli_task, getattr, bind, ret. rewrite Hv. simpl. discriminate.
  - unfold cli_task, getattr, bind. rewrite Hv. simpl. discriminate.
Qed.

Lemma result_namespace_lookup a b f :
  result_namespace a b f !! "format" = Some f
  /\ result_namespace a b f !! "action" = Some (VStr "result")
  /\ result_namespace a b f !! argparse._UNRECOGNIZED_ARGS_ATTR = None.
Proof.
  unfold result_namespace. split; [apply lookup_insert_eq|].
  split; rewrite !lookup_insert_ne by discriminate; vm_compute; reflexivity.
Qed.

(** A command line that the parser does not accept causes no call on the
    bus. *)
Lemma rejected_no_calls {S} int_of_str (host : Host S) argv s :
  (forall ns,
     argparse.parse_args int_of_str subparsers argv <> argparse.Done ns) ->
  calls (snd (main int_of_str host argv s)) = [].
Proof.
  intros Hrej.
  destruct (get_dbus_interface host s) as [[[[iface|]|e] s0] tr0] eqn:Hc;
    destruct (connection_silent _ _ _ _ _ Hc) as (_ & _ & Hcl & _).
  - rewrite (main_connected _ _ _ _ _ _ _ Hc).
    destruct (argparse.parse_args int_of_str subparsers argv)
      as [ns| |e|[|w|w]]; [exfalso; eapply Hrej; reflexivity|..];
      simpl; rewrite calls_app, Hcl; reflexivity.
  - rewrite (main_no_interface _ _ _ _ _ _ Hc). simpl.
    rewrite calls_app, Hcl. reflexivity.
  - rewrite (main_connect_raises _ _ _ _ _ _ _ Hc). exact Hcl.
Qed.

(** * The claims *)

(** ** C1: an unknown task id *)

(** C1, as amended.  For every task id, when the daemon answers
    [GetTaskTitle(id)] with NotFoundError, the command [task <id>] prints
    nothing: the fault leaves [main] as an exception that nobody catches,
    after the one remote call, and the process ends with status 1. *)
Theorem task_not_found_uncaught {S} int_of_str (host : Host S) argv s
    iface s0 tr0 ns task_id s1 :
  get_dbus_interface host s = (Ok (Some iface), s0, tr0) ->
  argparse.parse_args int_of_str subparsers argv = argparse.Done ns ->
  ns !! "action" = Some (VStr "task") ->
  ns !! "task_id" = Some (VInt task_id) ->
  GetTaskTitle iface task_id s0 = (Fault NotFoundError, s1) ->
  let '(r, s', tr) := main int_of_str host argv s in
  r = Raise (DBusException NotFoundError)
  /\ uncaught r = true
  /\ exit_status r = 1%Z
  /\ printed tr = []
  /\ calls tr = [CallGetTaskTitle task_id]
  /\ s' = s1.
Proof.
  intros Hc Hp Ha Ht Hg.
  rewrite (main_connected _ _ _ _ _ _ _ Hc), Hp, (dispatch_task _ _ Ha),
    (cli_task_one _ _ _ _ Ht), Hg.
  destruct (connection_silent _ _ _ _ _ Hc) as (_ & Hpr & Hcl & _).
  rewrite printed_app, calls_app, Hpr, Hcl. repeat split; reflexivity.
Qed.

Lemma task_not_found_uncaught_witness :
  let '(r, s', tr) := main int_decimal session_host ["task"; "3"] two_tasks in
  r = Raise (DBusException NotFoundError)
  /\ uncaught r = true
  /\ exit_status r = 1%Z
  /\ printed tr = []
  /\ calls tr = [CallGetTaskTitle 3]
  /\ s' = two_tasks.
Proof.
  eapply (task_not_found_uncaught int_decimal session_host ["task"; "3"]
            two_tasks daemon two_tasks).
  - vm_compute. reflexivity.
  - vm_compute. reflexivity.
  - vm_compute. reflexivity.
  - vm_compute. reflexivity.
  - vm_compute. reflexivity.
Defined.

(** C1 as the specification states it fails for the two tasks of the
    scenario and the command [task 3]: the daemon answers NotFoundError, and
    the run neither stays free of an uncaught exception nor prints a
    line. *)
Lemma task_not_found_counterexample :
  GetTaskTitle daemon 3 two_tasks = (Fault NotFoundError, two_tasks)
  /\ let '(r, _, tr) :=
       main int_decimal session_host ["task"; "3"] two_tasks in
     ~ (uncaught r = false /\ exit_status r <> 0%Z
        /\ exists line, printed tr = [line]).
Proof.
  split; [reflexivity|].
  vm_compute. intros (H & _). discriminate H.
Qed.

(** ** C2: the status command *)

(** C2, as amended.  Every accepted [status] command line runs
    [cli_status], whose body is empty: the run does not crash, makes no
    call on the bus, prints nothing and returns, so that the process ends
    with status 0. *)
Theorem status_prints_nothing {S} int_of_str (host : Host S) argv s
    iface s0 tr0 ns :
  get_dbus_interface host s = (Ok (Some iface), s0, tr0) ->
  argparse.parse_args int_of_str subparsers argv = argparse.Done ns ->
  ns !! "action" = Some (VStr "status") ->
  let '(r, s', tr) := main int_of_str host argv s in
  r = Ok tt /\ exit_status r = 0%Z /\ s' = s0
  /\ tr = tr0 ++ [EvParseArgs] /\ printed tr = [] /\ calls tr = [].
Proof.
  intros Hc Hp Ha.
  rewrite (main_connected _ _ _ _ _ _ _ Hc), Hp, (dispatch_status _ _ Ha).
  destruct (connection_silent _ _ _ _ _ Hc) as (_ & Hpr & Hcl & _).
  simpl. rewrite printed_app, calls_app, Hpr, Hcl. repeat split; reflexivity.
Qed.

Lemma status_prints_nothing_witness :
  let '(r, s', tr) := main int_decimal session_host ["status"] two_tasks in
  r = Ok tt /\ exit_status r = 0%Z /\ s' = two_tasks
  /\ tr = [EvThreadsInit; EvSessionBus; EvGetObject "BUS_NAME" "OBJECT_PATH"]
          ++ [EvParseArgs]
  /\ printed tr = [] /\ calls tr = [].
Proof.
  eapply (status_prints_nothing int_decimal session_host ["status"]
            two_tasks daemon).
  - vm_compute. reflexivity.
  - vm_compute. reflexivity.
  - vm_compute. reflexivity.
Defined.

(** C2 as the specification states it fails for the command [status]: the
    run prints no line at all, neither a summary nor a notice. *)
Lemma status_counterexample :
  let '(_, _, tr) := main int_decimal session_host ["status"] two_tasks in
  ~ (exists line, In line (printed tr)).
Proof.
  vm_compute. intros [line []].
Qed.

(** ** C3: the result command *)

(** C3, as amended.  Every accepted [result] command line, with or
    without RESULT_ID and FORMAT, asks for the format [arf] or [html]; the
    client has no handling of a missing task, result or format: it makes no
    call on the bus, raises nothing and the process ends with status 0. *)
Theorem result_never_not_found {S} int_of_str (host : Host S) argv s
    iface s0 tr0 ns :
  get_dbus_interface host s = (Ok (Some iface), s0, tr0) ->
  argparse.parse_args int_of_str subparsers argv = argparse.Done ns ->
  ns !! "action" = Some (VStr "result") ->
  let '(r, s', tr) := main int_of_str host argv s in
  (ns !! "format" = Some (VStr "arf") \/ ns !! "format" = Some (VStr "html"))
  /\ r = Ok tt /\ exit_status r = 0%Z /\ s' = s0
  /\ calls tr = [] /\ printed tr = [].
Proof.
  intros Hc Hp Ha.
  rewrite (main_connected _ _ _ _ _ _ _ Hc), Hp, (dispatch_result _ _ Ha).
  destruct (connection_silent _ _ _ _ _ Hc) as (_ & Hpr & Hcl & _).
  simpl. rewrite printed_app, calls_app, Hpr, Hcl.
  repeat split; try reflexivity.
  destruct (parse_args_ok _ _ _ Hp) as [H|[H|[_ H]]];
    [rewrite Ha in H; discriminate .. | exact H].
Qed.

Lemma result_never_not_found_witness :
  let '(r, s', tr) :=
    main int_decimal session_host ["result"; "3"; "10"; "html"] two_tasks in
  (result_namespace (VInt 3) (VInt 10) (VStr "html") !! "format"
   = Some (VStr "arf")
   \/ result_namespace (VInt 3) (VInt 10) (VStr "html") !! "format"
      = Some (VStr "html"))
  /\ r = Ok tt /\ exit_status r = 0%Z /\ s' = two_tasks
  /\ calls tr = [] /\ printed tr = [].
Proof.
  eapply (result_never_not_found int_decimal session_host
            ["result"; "3"; "10"; "html"] two_tasks daemon).
  - vm_compute. reflexivity.
  - vm_compute. reflexivity.
  - vm_compute. reflexivity.
Defined.

(** C3 as the specification states it fails for the two tasks of the
    scenario and the command [result 3]: task 3 does not exist, and no
    line, hence no not-found message, is printed. *)
Lemma result_counterexample :
  find_title 3 two_tasks = None
  /\ let '(_, _, tr) :=
       main int_decimal session_host ["result"; "3"] two_tasks in
     ~ (exists line, In line (printed tr)).
Proof.
  split; [reflexivity|]. vm_compute. intros [line []].
Qed.

(** ** C4: the summary of all tasks *)

(** C4, as amended.  For an accepted [task] command without an id,
    [ListTaskIDs] is called once and first, and [GetTaskTitle] is only
    ever applied to ids of its reply, in their order, each once at most.
    When every one of these calls succeeds, each id is asked for exactly
    once and each call is followed by the line of that task: the id, two
    tabs, the title, two tabs and three dots. *)
Theorem task_summary {S} int_of_str (host : Host S) argv s
    iface s0 tr0 ns ids s1 :
  get_dbus_interface host s = (Ok (Some iface), s0, tr0) ->
  argparse.parse_args int_of_str subparsers argv = argparse.Done ns ->
  ns !! "action" = Some (VStr "task") ->
  ns !! "task_id" = Some VNone ->
  ListTaskIDs iface s0 = (Reply ids, s1) ->
  let '(r, s', tr) := main int_of_str host argv s in
  (exists k, calls tr = CallListTaskIDs :: map CallGetTaskTitle (take k ids))
  /\ (forall titles s2,
        titles_of iface ids s1 = (Some titles, s2) ->
        r = Ok tt /\ s' = s2
        /\ tr = tr0 ++ EvParseArgs :: EvCall CallListTaskIDs
                       :: summary_events ids titles
        /\ calls tr = CallListTaskIDs :: map CallGetTaskTitle ids
        /\ printed tr = zip_with summary_line ids titles
        /\ length (printed tr) = length ids).
Proof.
  intros Hc Hp Ha Ht Hl.
  rewrite (main_connected _ _ _ _ _ _ _ Hc), Hp, (dispatch_task _ _ Ha),
    (cli_task_all _ _ _ Ht), Hl.
  destruct (connection_silent _ _ _ _ _ Hc) as (_ & Hpr & Hcl & _).
  pose proof (for_in_calls iface ids s1) as [k Hk].
  pose proof (for_in_summary iface ids s1) as Hall.
  destruct (for_in ids (summary_body iface) s1) as [[r s2] tr]. split.
  - exists k. rewrite calls_app, Hcl. simpl in *. rewrite Hk. reflexivity.
  - intros titles s3 Htitles. specialize (Hall _ _ Htitles).
    injection Hall as -> -> ->.
    pose proof (titles_of_length _ _ _ _ _ Htitles) as Hlen.
    rewrite printed_app, calls_app, Hpr, Hcl. simpl.
    rewrite summary_events_calls by exact Hlen.
    rewrite summary_events_printed.
    repeat split; try reflexivity.
    rewrite length_zip_with. lia.
Qed.

Lemma task_summary_witness :
  let '(r, s', tr) := main int_decimal session_host ["task"] two_tasks in
  r = Ok tt /\ s' = two_tasks
  /\ calls tr
     = [CallListTaskIDs; CallGetTaskTitle 1; CallGetTaskTitle 2]
  /\ printed tr = [summary_line 1 "Scan A"; summary_line 2 "Scan B"].
Proof.
  assert (H : let '(r, s', tr) :=
                main int_decimal session_host ["task"] two_tasks in
              (exists k,
                 calls tr
                 = CallListTaskIDs
                   :: map CallGetTaskTitle (take k [1%Z; 2%Z]))
              /\ (forall titles s2,
                    titles_of daemon [1%Z; 2%Z] two_tasks
                    = (Some titles, s2) ->
                    r = Ok tt /\ s' = s2
                    /\ tr = [EvThreadsInit; EvSessionBus;
                             EvGetObject "BUS_NAME" "OBJECT_PATH"]
                            ++ EvParseArgs :: EvCall CallListTaskIDs
                               :: summary_events [1%Z; 2%Z] titles
                    /\ calls tr
                       = CallListTaskIDs
                         :: map CallGetTaskTitle [1%Z; 2%Z]
                    /\ printed tr
                       = zip_with summary_line [1%Z; 2%Z] titles
                    /\ length (printed tr) = length [1%Z; 2%Z])).
  { eapply (task_summary int_decimal session_host ["task"] two_tasks daemon
              two_tasks).
    - vm_compute. reflexivity.
    - vm_compute. reflexivity.
    - vm_compute. reflexivity.
    - vm_compute. reflexivity.
    - vm_compute. reflexivity. }
  destruct (main int_decimal session_host ["task"] two_tasks)
    as [[r s'] tr].
  destruct H as [_ H].
  destruct (H ["Scan A"; "Scan B"] two_tasks eq_refl)
    as (Hr & Hs & _ & Hc & Hp & _).
  repeat split; assumption.
Defined.

(** C4 as the specification states it fails for the two tasks of the
    scenario: the lines that [task] prints do not have one tab between the
    id and the title. *)
Lemma task_summary_counterexample :
  let '(_, _, tr) := main int_decimal session_host ["task"] two_tasks in
  ~ (exists placeholder1 placeholder2,
       printed tr
       = [string_of_Z 1 +:+ TAB +:+ "Scan A" +:+ TAB +:+ placeholder1;
          string_of_Z 2 +:+ TAB +:+ "Scan B" +:+ TAB +:+ placeholder2]).
Proof.
  vm_compute. intros (p1 & p2 & H). discriminate H.
Qed.

(** ** C5: no connection *)




(** ** C6: the scenario with two tasks *)

(** C6, as amended.  With the tasks 1, "Scan A", and 2, "Scan B":
    [task] prints the two summary lines of tasks 1 and 2 and ends with
    status 0; [task 1] prints the ID line and the Title line of task 1 and
    ends with status 0; [task 3] prints nothing, the NotFoundError is not
    caught, and the process ends with status 1. *)
Theorem two_tasks_scenario :
  (let '(r, _, tr) := main int_decimal session_host ["task"] two_tasks in
   printed tr = [summary_line 1 "Scan A"; summary_line 2 "Scan B"]
   /\ summary_line 1 "Scan A"
      = "1" +:+ TAB +:+ TAB +:+ "Scan A" +:+ TAB +:+ TAB +:+ "..."
   /\ summary_line 2 "Scan B"
      = "2" +:+ TAB +:+ TAB +:+ "Scan B" +:+ TAB +:+ TAB +:+ "..."
   /\ exit_status r = 0%Z)
  /\ (let '(r, _, tr) :=
        main int_decimal session_host ["task"; "1"] two_tasks in
      printed tr = ["ID:" +:+ TAB +:+ "1"; "Title:" +:+ TAB +:+ "Scan A"]
      /\ exit_status r = 0%Z)
  /\ (let '(r, _, tr) :=
        main int_decimal session_host ["task"; "3"] two_tasks in
      printed tr = [] /\ r = Raise (DBusException NotFoundError)
      /\ uncaught r = true /\ exit_status r = 1%Z).
Proof.
  split; [|split]; vm_compute; repeat split; reflexivity.
Qed.

(** C6 as the specification states it fails at [task 3]: no line, hence
    no not-found message, is printed. *)
Lemma two_tasks_counterexample :
  let '(_, _, tr) := main int_decimal session_host ["task"; "3"] two_tasks in
  ~ (exists line, In line (printed tr)).
Proof.
  vm_compute. intros [line []].
Qed.


(** ** C7: no task *)

(** C7.  When [ListTaskIDs] returns the empty list, the command [task]
    prints nothing, calls nothing else and returns: the process ends with
    status 0. *)
Theorem empty_task_list_is_success {S} int_of_str (host : Host S) s
    iface s0 tr0 s1 :
  get_dbus_interface host s = (Ok (Some iface), s0, tr0) ->
  ListTaskIDs iface s0 = (Reply [], s1) ->
  let '(r, s', tr) := main int_of_str host ["task"] s in
  r = Ok tt /\ exit_status r = 0%Z /\ s' = s1
  /\ printed tr = [] /\ calls tr = [CallListTaskIDs]
  /\ tr = tr0 ++ [EvParseArgs; EvCall CallListTaskIDs].
Proof.
  intros Hc Hl.
  rewrite (main_connected _ _ _ _ _ _ _ Hc).
  assert (Hp : exists ns,
             argparse.parse_args int_of_str subparsers ["task"]
             = argparse.Done ns
             /\ ns !! "action" = Some (VStr "task")
             /\ ns !! "task_id" = Some VNone).
  { eexists. split; [vm_compute; reflexivity|].
    split; vm_compute; reflexivity. }
  destruct Hp as (ns & -> & Ha & Ht).
  rewrite (dispatch_task _ _ Ha), (cli_task_all _ _ _ Ht), Hl.
  destruct (connection_silent _ _ _ _ _ Hc) as (_ & Hpr & Hcl & _).
  simpl. rewrite printed_app, calls_app, Hpr, Hcl. repeat split; reflexivity.
Qed.

Lemma empty_task_list_is_success_witness :
  let '(r, s', tr) := main int_decimal session_host ["task"] [] in
  r = Ok tt /\ exit_status r = 0%Z /\ s' = []
  /\ printed tr = [] /\ calls tr = [CallListTaskIDs]
  /\ tr = [EvThreadsInit; EvSessionBus; EvGetObject "BUS_NAME" "OBJECT_PATH"]
          ++ [EvParseArgs; EvCall CallListTaskIDs].
Proof.
  apply (empty_task_list_is_success int_decimal session_host [] daemon []).
  - vm_compute. reflexivity.
  - vm_compute. reflexivity.
Defined.

(** ** C8: the FORMAT argument *)

(** C8.  An accepted result command carries the format [arf] or [html]
    and no other value.  For a task id and a result id that are plain words
    and integers: a third plain word is accepted exactly when it is [arf]
    or [html]; any other one is refused by the parser with exit status 2,
    and the run makes no call on the bus; without a third word, or without
    a result id, the format is [arf]. *)
Theorem format_is_arf_or_html {S} int_of_str (host : Host S) s t r f a b :
  plain t -> plain r -> plain f ->
  int_of_str t = Some a -> int_of_str r = Some b ->
  (forall argv ns,
     argparse.parse_args int_of_str subparsers argv = argparse.Done ns ->
     ns !! "action" = Some (VStr "result") ->
     ns !! "format" = Some (VStr "arf") \/ ns !! "format" = Some (VStr "html"))
  /\ (f = "arf" \/ f = "html" ->
      argparse.parse_args int_of_str subparsers ["result"; t; r; f]
      = argparse.Done (result_namespace (VInt a) (VInt b) (VStr f))
      /\ result_namespace (VInt a) (VInt b) (VStr f) !! "format"
         = Some (VStr f))
  /\ (f <> "arf" -> f <> "html" ->
      argparse.parse_args int_of_str subparsers ["result"; t; r; f]
      = argparse.Error (argparse.InvalidChoice (VStr f))
      /\ calls (snd (main int_of_str host ["result"; t; r; f] s)) = []
      /\ forall iface s0 tr0,
           get_dbus_interface host s = (Ok (Some iface), s0, tr0) ->
           main int_of_str host ["result"; t; r; f] s
           = (Raise (SystemExit 2), s0,
              tr0 ++ [EvParseArgs;
                      EvUsage (argparse.InvalidChoice (VStr f))]))
  /\ (argparse.parse_args int_of_str subparsers ["result"; t; r]
      = argparse.Done (result_namespace (VInt a) (VInt b) (VStr "arf"))
      /\ result_namespace (VInt a) (VInt b) (VStr "arf") !! "format"
         = Some (VStr "arf"))
  /\ (argparse.parse_args int_of_str subparsers ["result"; t]
      = argparse.Done (result_namespace (VInt a) VNone (VStr "arf"))
      /\ result_namespace (VInt a) VNone (VStr "arf") !! "format"
         = Some (VStr "arf")).
Proof.
  intros Ht Hr Hf Ha Hb.
  pose proof (sub_result_3 int_of_str t r f Ht Hr Hf) as H3.
  pose proof (sub_result_2 int_of_str t r Ht Hr) as H2.
  pose proof (sub_result_1 int_of_str t Ht) as H1.
  rewrite Ha, Hb in H3. rewrite Ha, Hb in H2. rewrite Ha in H1.
  split; [|split; [|split; [|split]]].
  - intros argv ns Hp Hact.
    destruct (parse_args_ok _ _ _ Hp) as [H|[H|[_ H]]];
      [rewrite Hact in H; discriminate .. | exact H].
  - intros Hchoice.
    assert (Hin : argparse.in_strings f ["html"; "arf"] = true)
      by (destruct Hchoice as [-> | ->]; reflexivity).
    rewrite Hin in H3. split; [|apply result_namespace_lookup].
    apply parse_args_result_done; auto; apply result_namespace_lookup.
  - intros Harf Hhtml.
    assert (Hin : argparse.in_strings f ["html"; "arf"] = false).
    { unfold argparse.in_strings. simpl.
      apply String.eqb_neq in Harf, Hhtml. rewrite Harf, Hhtml. reflexivity. }
    rewrite Hin in H3.
    assert (Hp : argparse.parse_args int_of_str subparsers ["result"; t; r; f]
                 = argparse.Error (argparse.InvalidChoice (VStr f)))
      by (apply parse_args_result_error; auto).
    split; [exact Hp|]. split.
    + apply rejected_no_calls. intros ns. rewrite Hp. discriminate.
    + intros iface s0 tr0 Hc.
      rewrite (main_connected _ _ _ _ _ _ _ Hc), Hp. reflexivity.
  - split; [|apply result_namespace_lookup].
    apply parse_args_result_done; auto; apply result_namespace_lookup.
  - split; [|apply result_namespace_lookup].
    apply parse_args_result_done; auto; apply result_namespace_lookup.
Qed.

Lemma format_is_arf_or_html_witness :
  argparse.parse_args int_decimal subparsers ["result"; "1"; "10"; "pdf"]
  = argparse.Error (argparse.InvalidChoice (VStr "pdf"))
  /\ calls (snd (main int_decimal session_host
                   ["result"; "1"; "10"; "pdf"] two_tasks)) = []
  /\ argparse.parse_args int_decimal subparsers ["result"; "1"; "10"]
     = argparse.Done (result_namespace (VInt 1) (VInt 10) (VStr "arf"))
  /\ argparse.parse_args int_decimal subparsers ["result"; "1"]
     = argparse.Done (result_namespace (VInt 1) VNone (VStr "arf")).
Proof.
  destruct (format_is_arf_or_html int_decimal session_host two_tasks
              "1" "10" "pdf" 1%Z 10%Z)
    as (_ & _ & Hrej & [Hdef2 _] & [Hdef1 _]);
    try reflexivity.
  destruct Hrej as (Hp & Hcalls & _); try discriminate.
  repeat split; assumption.
Defined.

(** ** C9: dispatch *)

(** C9.  Every command line that the parser accepts carries the action
    [task], [status] or [result], and no run of [main] ends in the
    RuntimeError of the last branch of the dispatch. *)
Theorem unknown_action_unreachable {S} int_of_str (host : Host S) argv s :
  (forall ns,
     argparse.parse_args int_of_str subparsers argv = argparse.Done ns ->
     ns !! "action" = Some (VStr "task")
     \/ ns !! "action" = Some (VStr "status")
     \/ ns !! "action" = Some (VStr "result"))
  /\ (forall unknown,
        fst (fst (main int_of_str host argv s)) <> Raise (RuntimeError unknown)).
Proof.
  split.
  - intros ns Hp. destruct (parse_args_ok _ _ _ Hp) as [H|[H|[H _]]]; auto.
  - intros unknown.
    destruct (get_dbus_interface host s) as [[[[iface|]|e] s0] tr0] eqn:Hc.
    + rewrite (main_connected _ _ _ _ _ _ _ Hc).
      destruct (argparse.parse_args int_of_str subparsers argv)
        as [ns| |e|[|w|w]] eqn:Hp; try discriminate.
      destruct (parse_args_ok _ _ _ Hp) as [H|[H|[H _]]].
      * rewrite (dispatch_task _ _ H).
        pose proof (cli_task_never_runtime_error iface ns s0 unknown) as Hn.
        destruct (cli_task (Some iface) ns s0) as [[r s1] tr1]. exact Hn.
      * rewrite (dispatch_status _ _ H). discriminate.
      * rewrite (dispatch_result _ _ H). discriminate.
    + rewrite (main_no_interface _ _ _ _ _ _ Hc). discriminate.
    + rewrite (main_connect_raises _ _ _ _ _ _ _ Hc).
      destruct (connection_fault _ _ _ _ _ Hc) as [f ->]. discriminate.
Qed.

Lemma unknown_action_unreachable_witness :
  (({["action" := VStr "task"; "task_id" := VInt 1]} : Namespace)
     !! "action" = Some (VStr "task")
   \/ ({["action" := VStr "task"; "task_id" := VInt 1]} : Namespace)
        !! "action" = Some (VStr "status")
   \/ ({["action" := VStr "task"; "task_id" := VInt 1]} : Namespace)
        !! "action" = Some (VStr "result"))
  /\ (forall unknown,
        fst (fst (main int_decimal session_host ["task"; "1"] two_tasks))
        <> Raise (RuntimeError unknown)).
Proof.
  pose proof (unknown_action_unreachable int_decimal session_host
                ["task"; "1"] two_tasks) as [H1 H2].
  split; [|exact H2].
  apply H1. vm_compute. reflexivity.
Defined.

(** ** C10: the connection comes first *)

(** C10.  Whatever the command line, a run begins with the connection
    attempt, and the command line is read, if at all, after it; so when
    the attempt gives no interface the process exits with status 1 for
    every argument vector, without having read it. *)
Theorem connection_precedes_parsing {S} int_of_str (host : Host S) argv s :
  let '(r, s', tr) := main int_of_str host argv s in
  (exists rest, tr = EvThreadsInit :: EvSessionBus :: rest)
  /\ (forall before after,
        tr = before ++ EvParseArgs :: after -> In EvSessionBus before)
  /\ (forall s0 tr0,
        get_dbus_interface host s = (Ok None, s0, tr0) ->
        exit_status r = 1%Z /\ ~ In EvParseArgs tr).
Proof.
  destruct (main int_of_str host argv s) as [[r s'] tr] eqn:Hm.
  assert (Hstart : exists rest, tr = EvThreadsInit :: EvSessionBus :: rest).
  { destruct (get_dbus_interface host s) as [[[[iface|]|e] s0] tr0] eqn:Hc;
      destruct (connection_silent _ _ _ _ _ Hc) as (_ & _ & _ & _ & rest & ->).
    - rewrite (main_connected _ _ _ _ _ _ _ Hc) in Hm.
      destruct (argparse.parse_args int_of_str subparsers argv)
        as [ns| |e|[|w|w]];
        [destruct (dispatch (Some iface) ns s0) as [[r1 s1] tr1]|..];
        injection Hm as <- <- <-; eexists; reflexivity.
    - rewrite (main_no_interface _ _ _ _ _ _ Hc) in Hm.
      injection Hm as <- <- <-. eexists. reflexivity.
    - rewrite (main_connect_raises _ _ _ _ _ _ _ Hc) in Hm.
      injection Hm as <- <- <-. eexists. reflexivity. }
  split; [exact Hstart|]. split.
  - destruct Hstart as [rest ->]. intros [|x [|y before]] after Heq;
      try discriminate.
    injection Heq as <- <- _. right. left. reflexivity.
  - intros s0 tr0 Hc.
    pose proof (no_interface_run int_of_str host argv s s0 tr0 Hc) as H.
    rewrite Hm in H. destruct H as (-> & _ & _ & _ & _ & _ & Hn).
    split; [reflexivity|exact Hn].
Qed.

Lemma connection_precedes_parsing_witness :
  let '(r, s', tr) := main int_decimal no_bus_host ["no-such-command"] [] in
  (exists rest, tr = EvThreadsInit :: EvSessionBus :: rest)
  /\ exit_status r = 1%Z /\ ~ In EvParseArgs tr.
Proof.
  pose proof (connection_precedes_parsing int_decimal no_bus_host
                ["no-such-command"] []) as H.
  destruct (main int_decimal no_bus_host ["no-such-command"] [])
    as [[r s'] tr].
  destruct H as (Hstart & _ & Hnone).
  split; [exact Hstart|].
  apply (Hnone [] [EvThreadsInit; EvSessionBus]).
  vm_compute. reflexivity.
Defined.

(** * Further lemmas *)

(** ** Sub-commands followed by plain words *)

Section SubCommands.

Import argparse.

Variable int_of_str : string -> option Z.

Lemma find_parser_choice name parsers p :
  find_parser name parsers = Some p ->
  existsb (value_eqb (VStr name)) (map (fun np => VStr (fst np)) parsers)
  = true.
Proof.
  revert p.
  induction parsers as [|[n q] rest IH]; intros p;
    cbn [find_parser map existsb fst]; [discriminate|].
  destruct (find_parser name rest) as [q'|].
  - intros _. rewrite (IH q') by reflexivity. apply orb_true_r.
  - cbn [value_eqb]. destruct (String.eqb name n); [reflexivity|discriminate].
Qed.

Lemma find_parser_no_choice name parsers :
  find_parser name parsers = None ->
  existsb (value_eqb (VStr name)) (map (fun np => VStr (fst np)) parsers)
  = false.
Proof.
  induction parsers as [|[n q] rest IH]; cbn [find_parser map existsb fst];
    [reflexivity|].
  destruct (find_parser name rest) as [q'|]; [discriminate|].
  cbn [value_eqb]. destruct (String.eqb name n); [discriminate|].
  intros _. apply IH. reflexivity.
Qed.

(** What the main parser makes of a sub-command and its plain words, from
    what the sub-parser makes of the words. *)
Lemma parse_args_sub_done name p ws subns extras :
  plain name -> Forall plain ws ->
  find_parser name subparsers = Some p ->
  parse_known_args_sub int_of_str p ws = Done (subns, extras) ->
  subns !! _UNRECOGNIZED_ARGS_ATTR = None ->
  parse_args int_of_str subparsers (name :: ws) =
    match extras with
    | [] => Done subns
    | _ :: _ => Error (UnrecognizedArguments extras)
    end.
Proof.
  intros Hn Hws Hf Hsub Hu.
  rewrite parse_args_subcommand by (auto; eapply find_parser_choice; eauto).
  unfold subparsers_call. cbn [map]. rewrite Hf.
  rewrite strings_of_strings, Hsub.
  cbn [obind].
  change (String.eqb (dest (subparsers_action subparsers)) SUPPRESS) with true.
  cbv iota. rewrite (right_id_L ∅ (∪)).
  destruct extras as [|x xs].
  - unfold pop_unrecognized. cbn [obind fst snd]. rewrite Hu. reflexivity.
  - rewrite Hu. cbn [obind]. unfold pop_unrecognized. cbn [fst snd].
    rewrite lookup_insert_eq, strings_of_strings. reflexivity.
Qed.

Lemma parse_args_sub_error name p ws e :
  plain name -> Forall plain ws ->
  find_parser name subparsers = Some p ->
  parse_known_args_sub int_of_str p ws = Error e ->
  parse_args int_of_str subparsers (name :: ws) = Error e.
Proof.
  intros Hn Hws Hf Hsub.
  rewrite parse_args_subcommand by (auto; eapply find_parser_choice; eauto).
  unfold subparsers_call. cbn [map]. rewrite Hf.
  rewrite strings_of_strings, Hsub. reflexivity.
Qed.

(** A first word that names no sub-command is an invalid choice. *)
Lemma parse_args_no_such_command name ws :
  plain name -> Forall plain ws ->
  find_parser name subparsers = None ->
  parse_args int_of_str subparsers (name :: ws)
  = Error (InvalidChoice (VStr name)).
Proof.
  intros Hn Hws Hf. unfold parse_args, parse_known_args, _parse_known_args.
  rewrite classify_plain by (constructor; assumption).
  cbn [obind].
  rewrite run_loop_no_option by apply next_option_args.
  cbn [obind toks pending namespace extras].
  unfold consume_positionals. cbn [map]. rewrite match_subcommand.
  cbn [take_actions length take drop].
  rewrite firstn_all.
  unfold take_action, _get_values. cbn [nargs subparsers_action].
  rewrite get_each_str by reflexivity.
  cbn [obind map arg_string]. rewrite map_map. cbn [arg_string].
  unfold _check_value. cbn [choices subparsers_action].
  rewrite (find_parser_no_choice _ _ Hf).
  destruct (map (fun x : string => x) ws); reflexivity.
Qed.

Lemma match_task_word w q :
  _match_arguments_partial (positionals task_parser) (map TokA (w :: q))
  = [1].
Proof. destruct q; reflexivity. Qed.

Lemma task_namespace_lookup v :
  task_namespace v !! "task_id" = Some v
  /\ task_namespace v !! "action" = Some (VStr "task")
  /\ task_namespace v !! _UNRECOGNIZED_ARGS_ATTR = None.
Proof.
  unfold task_namespace. split; [apply lookup_insert_eq|].
  split; rewrite lookup_insert_ne by discriminate; vm_compute; reflexivity.
Qed.

Lemma sub_task_words w ws :
  plain w -> Forall plain ws ->
  parse_known_args_sub int_of_str task_parser (w :: ws) =
    match int_of_str w with
    | Some z => Done (task_namespace (VInt z), ws)
    | None => Error (InvalidValue w)
    end.
Proof.
  intros Hw Hws. unfold parse_known_args_sub, _parse_known_args.
  rewrite classify_plain by (constructor; assumption).
  cbn [obind].
  rewrite run_loop_no_option by apply next_option_args.
  cbn [obind toks pending namespace extras].
  unfold consume_positionals. rewrite match_task_word.
  change (positionals task_parser)
    with [{| dest := "task_id"; type := TypeInt; nargs := NargsOptional;
             choices := None; default := VNone |}].
  cbn [take_actions take drop map arg_string length].
  rewrite take_int_word by (auto; discriminate).
  destruct (int_of_str w) as [z|]; [|reflexivity].
  cbn [obind fst snd dest app]. rewrite drop_0, map_map. cbn [arg_string].
  rewrite map_id.
  unfold pop_unrecognized. cbn [fst snd].
  fold (task_namespace (VInt z)).
  rewrite (proj2 (proj2 (task_namespace_lookup (VInt z)))). reflexivity.
Qed.

Lemma sub_task_none :
  parse_known_args_sub int_of_str task_parser []
  = Done (task_namespace VNone, []).
Proof. vm_compute. reflexivity. Qed.

Lemma sub_status_words ws :
  Forall plain ws ->
  parse_known_args_sub int_of_str status_parser ws
  = Done (status_namespace, ws).
Proof.
  intros Hws. unfold parse_known_args_sub, _parse_known_args.
  rewrite classify_plain by assumption.
  cbn [obind].
  rewrite run_loop_no_option by apply next_option_args.
  cbn [obind toks pending namespace extras].
  unfold consume_positionals.
  change (positionals status_parser) with (@nil Action).
  cbn [_match_arguments_partial match_slices length take_actions obind
       fst snd drop app].
  rewrite map_map. cbn [arg_string]. rewrite map_id.
  reflexivity.
Qed.

End SubCommands.

Section ResultWords.

Import argparse.

Variable int_of_str : string -> option Z.

Lemma match_result_words t r f q :
  _match_arguments_partial (positionals result_parser)
    (map TokA (t :: r :: f :: q))
  = [1; 1; 1].
Proof. destruct q; reflexivity. Qed.

(** Three operands and whatever plain words follow them. *)
Lemma sub_result_words t r f ws :
  plain t -> plain r -> plain f -> Forall plain ws ->
  parse_known_args_sub int_of_str result_parser (t :: r :: f :: ws) =
    match int_of_str t with
    | None => Error (InvalidValue t)
    | Some a =>
      match int_of_str r with
      | None => Error (InvalidValue r)
      | Some b =>
        if in_strings f ["html"; "arf"] then
          Done (result_namespace (VInt a) (VInt b) (VStr f), ws)
        else Error (InvalidChoice (VStr f))
      end
    end.
Proof.
  intros Ht Hr Hf Hws. unfold parse_known_args_sub, _parse_known_args.
  rewrite classify_plain by (repeat constructor; assumption).
  cbn [obind].
  rewrite run_loop_no_option by apply next_option_args.
  cbn [obind toks pending namespace extras].
  unfold consume_positionals. rewrite match_result_words.
  change (positionals result_parser)
    with [task_id_arg; result_id_arg; format_arg].
  cbn [take_actions take drop map arg_string length].
  rewrite take_int_word by (auto; discriminate).
  destruct (int_of_str t) as [a|]; [|reflexivity].
  cbn [obind].
  rewrite take_int_word by (auto; discriminate).
  destruct (int_of_str r) as [b|]; [|reflexivity].
  cbn [obind].
  unfold take_action, _get_values. cbn [nargs format_arg].
  rewrite ?take_0, ?drop_0. cbn [map].
  rewrite (remove_first_plain _ Hf).
  unfold _get_value, _check_value.
  cbn [type choices format_arg obind existsb value_eqb].
  unfold in_strings. cbn [existsb].
  destruct (String.eqb f "html" || (String.eqb f "arf" || false));
    [|reflexivity].
  cbn [obind store dest format_arg result_id_arg task_id_arg fst snd app].
  rewrite ?drop_0, map_map. cbn [arg_string]. rewrite map_id.
  unfold pop_unrecognized, result_namespace. cbn [fst snd].
  rewrite !lookup_insert_ne by discriminate.
  replace (add_defaults result_parser ∅ !! _UNRECOGNIZED_ARGS_ATTR)
    with (@None value) by (vm_compute; reflexivity).
  reflexivity.
Qed.

Lemma sub_result_none :
  parse_known_args_sub int_of_str result_parser [] = Error TooFewArguments.
Proof. vm_compute. reflexivity. Qed.

End ResultWords.

(** ** Options *)

Section Options.

Import argparse.

Lemma split_at_two_dashes s :
  split_at "=" (String "-" (String "-" s)) =
    match split_at "=" s with
    | Some (a, b) => Some (String "-" (String "-" a), b)
    | None => None
    end.
Proof. simpl. destruct (split_at "=" s) as [[a b]|]; reflexivity. Qed.

(** With [-h] and [--help] as the only options no word is ambiguous:
    [_get_option_tuples] finds one option at most. *)
Lemma _get_option_tuples_short c s :
  exists tuples,
    _get_option_tuples (String "-" (String c s)) = Done tuples
    /\ length tuples <= 1.
Proof.
  unfold _get_option_tuples. cbn [String.get Nat.eqb Nat.pred].
  change (Ascii.eqb "-" "-") with true. cbn [andb].
  destruct (Ascii.eqb c "-") eqn:Hc.
  - apply Ascii.eqb_eq in Hc as ->.
    rewrite split_at_two_dashes.
    destruct (split_at "=" s) as [[a b]|]; eexists; (split; [reflexivity|]);
      cbn;
      repeat match goal with
             | |- context [decide ?P] => destruct (decide P)
             end; simpl; first [contradiction | lia].
  - eexists. split; [reflexivity|].
    cbn -[String.eqb String.prefix].
    assert (Hp : String.prefix (String "-" (String c s)) "--help" = false).
    { cbn. destruct (ascii_dec c "-") as [->|]; [|reflexivity].
      discriminate Hc. }
    assert (He : String.eqb "--help" (String "-" (String c "")) = false).
    { apply String.eqb_neq. discriminate. }
    replace (substring 0 0 s) with EmptyString by (destruct s; reflexivity).
    rewrite Hp, He.
    repeat match goal with
           | |- context [if ?b then _ else _] => destruct b
           end; simpl; lia.
Qed.

Lemma _parse_optional_total s : exists o, _parse_optional s = Done o.
Proof.
  unfold _parse_optional.
  destruct (String.eqb s ""); [eexists; reflexivity|].
  destruct s as [|c0 s]; [eexists; reflexivity|].
  destruct (String.prefix "-" (String c0 s)) eqn:Hp; [|eexists; reflexivity].
  cbn [negb].
  destruct (in_strings (String c0 s) option_strings); [eexists; reflexivity|].
  destruct s as [|c1 s]; [eexists; reflexivity|].
  cbn [String.length Nat.eqb].
  assert (Hc0 : c0 = "-"%char).
  { unfold String.prefix in Hp. destruct (ascii_dec "-" c0) as [<-|]; [reflexivity|discriminate]. }
  subst c0.
  destruct (_get_option_tuples_short c1 s) as (tuples & -> & Hlen).
  destruct (split_at "=" (String "-" (String c1 s))) as [[o e]|];
    [destruct (in_strings o option_strings); [eexists; reflexivity|]|];
    cbn [obind];
    (destruct tuples as [|[o1 e1] [|t2 tuples]]; [| |simpl in Hlen; lia]);
    try (eexists; reflexivity);
    repeat match goal with
           | |- context [if ?b then _ else _] => destruct b
           end; eexists; reflexivity.
Qed.

(** Hence no command line is refused while its words are classified. *)
Lemma classify_total arg_strings : exists ts, classify arg_strings = Done ts.
Proof.
  induction arg_strings as [|s rest [ts IH]]; simpl; [eexists; reflexivity|].
  destruct (String.eqb s "--"); [eexists; reflexivity|].
  destruct (_parse_optional_total s) as [o ->]. rewrite IH.
  eexists. reflexivity.
Qed.

End Options.

Section HelpOption.

Import argparse.

Variable int_of_str : string -> option Z.

Lemma classify_arg_strings arg_strings ts :
  classify arg_strings = Done ts -> map arg_string ts = arg_strings.
Proof.
  revert ts. induction arg_strings as [|s rest IH]; intros ts; simpl.
  - intros [= <-]. reflexivity.
  - destruct (String.eqb s "--") eqn:Hs.
    + apply String.eqb_eq in Hs as ->. intros [= <-]. simpl.
      rewrite map_map. simpl. rewrite map_id. reflexivity.
    + destruct (_parse_optional s) as [o| |e|e]; simpl; try discriminate.
      destruct (classify rest) as [ts'| |e|e]; simpl; try discriminate.
      intros [= <-]. rewrite <- (IH _ eq_refl). destruct o; reflexivity.
Qed.

Lemma classify_help h ws :
  In h option_strings ->
  exists ts,
    classify (h :: ws)
    = Done (TokO h {| option_string := Some h; explicit_arg := None |} :: ts)
    /\ map arg_string ts = ws.
Proof.
  intros Hh. destruct (classify_total ws) as [ts Hts].
  exists ts. split; [|apply classify_arg_strings; exact Hts].
  cbn [classify]. rewrite Hts.
  destruct Hh as [<-|[<-|[]]]; reflexivity.
Qed.

(** A parser that meets [-h] or [--help] as its first word prints its
    help, whatever its positionals and whatever follows. *)
Lemma _parse_known_args_help call h ws positionals ns :
  In h option_strings ->
  _parse_known_args int_of_str call (h :: ws) positionals ns = Help.
Proof.
  intros Hh. unfold _parse_known_args.
  destruct (classify_help h ws Hh) as (ts & -> & _).
  cbn [obind]. rewrite run_loop_step. reflexivity.
Qed.

Lemma parse_args_help h ws :
  In h option_strings -> parse_args int_of_str subparsers (h :: ws) = Help.
Proof.
  intros Hh. unfold parse_args, parse_known_args.
  rewrite _parse_known_args_help by exact Hh. reflexivity.
Qed.

Lemma parse_args_sub_help name p h ws :
  plain name -> find_parser name subparsers = Some p ->
  In h option_strings ->
  parse_args int_of_str subparsers (name :: h :: ws) = Help.
Proof.
  intros Hn Hf Hh. unfold parse_args, parse_known_args, _parse_known_args.
  destruct (classify_help h ws Hh) as (ts & Hts & Hargs).
  cbn [classify]. rewrite (proj1 (plain_not_separator _ Hn)).
  rewrite (plain_parse_optional _ Hn). cbn [obind].
  cbn [classify] in Hts.
  assert (Hsep : String.eqb h "--" = false)
    by (destruct Hh as [<-|[<-|[]]]; reflexivity).
  rewrite Hsep in *. rewrite Hts. cbn [obind].
  rewrite run_loop_step. unfold loop_step.
  cbn [toks pending namespace extras next_option].
  unfold consume_positionals. rewrite match_subcommand.
  cbn [take_actions length take]. rewrite firstn_all.
  unfold take_action, _get_values. cbn [nargs subparsers_action].
  rewrite get_each_str by reflexivity.
  cbn [map arg_string obind]. rewrite Hargs.
  unfold _check_value. cbn [choices subparsers_action].
  rewrite (find_parser_choice _ _ _ Hf). cbn [obind].
  unfold subparsers_call. rewrite Hf.
  change (strings_of (VStr h :: map VStr ws))
    with (strings_of (map VStr (h :: ws))).
  rewrite strings_of_strings.
  unfold parse_known_args_sub.
  rewrite _parse_known_args_help by exact Hh. reflexivity.
Qed.

(** [-h=]: the help option with an empty argument glued to it.  The
    parser looks at the first character of that argument. *)
Lemma parse_args_index_error ws :
  parse_args int_of_str subparsers ("-h=" :: ws) = Crash CrashIndexError.
Proof.
  unfold parse_args, parse_known_args, _parse_known_args.
  destruct (classify_total ws) as [ts Hts].
  cbn [classify]. rewrite Hts.
  change (String.eqb "-h=" "--") with false.
  change (_parse_optional "-h=")
    with (Done (Some {| option_string := Some "-h";
                        explicit_arg := Some "" |})).
  cbn [obind]. rewrite run_loop_step. reflexivity.
Qed.

End HelpOption.

(** ** The handlers *)

Section HandlerFacts.

Context {S : Type}.

(** [cli_task] on any namespace whatever. *)
Lemma cli_task_cases (iface : Interface S) ns s :
  cli_task (Some iface) ns s =
    match ns !! "task_id" with
    | None => (Raise (AttributeError "task_id"), s, [])
    | Some VNone =>
        match ListTaskIDs iface s with
        | (Reply ids, s1) =>
            let '(r, s2, tr) := for_in ids (summary_body iface) s1 in
            (r, s2, EvCall CallListTaskIDs :: tr)
        | (Fault f, s1) =>
            (Raise (DBusException f), s1, [EvCall CallListTaskIDs])
        end
    | Some (VInt task_id) =>
        match GetTaskTitle iface task_id s with
        | (Reply title, s') =>
            (Ok tt, s',
             [EvCall (CallGetTaskTitle task_id);
              EvPrint ("ID:" +:+ TAB +:+ string_of_Z task_id);
              EvPrint ("Title:" +:+ TAB +:+ title)])
        | (Fault f, s') =>
            (Raise (DBusException f), s', [EvCall (CallGetTaskTitle task_id)])
        end
    | Some _ =>
        (Raise (TypeError "GetTaskTitle: an integer is required"), s, [])
    end.
Proof.
  destruct (ns !! "task_id") as [[|z|w|l]|] eqn:Hv.
  - apply cli_task_all. exact Hv.
  - apply cli_task_one. exact Hv.
  - unfold cli_task, getattr, bind, ret. rewrite Hv. reflexivity.
  - unfold cli_task, getattr, bind, ret. rewrite Hv. reflexivity.
  - unfold cli_task, getattr, bind. rewrite Hv. reflexivity.
Qed.

(** The summary loop up to the first id whose title the daemon refuses:
    the lines of the ids before it are printed, and the fault leaves the
    loop right after the refused call. *)
Lemma for_in_summary_fault (iface : Interface S) pre : forall s titles s2,
  titles_of iface pre s = (Some titles, s2) ->
  forall task_id post f s3,
    GetTaskTitle iface task_id s2 = (Fault f, s3) ->
    for_in (pre ++ task_id :: post) (summary_body iface) s
    = (Raise (DBusException f), s3,
       summary_events pre titles ++ [EvCall (CallGetTaskTitle task_id)]).
Proof.
  induction pre as [|id pre IH]; intros s titles s2; simpl.
  - intros [= <- <-] task_id post f s3 Hg.
    unfold bind. rewrite summary_body_run, Hg. reflexivity.
  - destruct (GetTaskTitle iface id s) as [[title|f0] s1] eqn:Hid;
      [|discriminate].
    destruct (titles_of iface pre s1) as [[titles1|] s2'] eqn:Ht;
      [|discriminate].
    intros [= <- <-] task_id post f s3 Hg.
    unfold bind. rewrite summary_body_run, Hid.
    rewrite (IH _ _ _ Ht _ post _ _ Hg). reflexivity.
Qed.

Lemma for_in_command_events (iface : Interface S) ids : forall s,
  forallb command_event (snd (for_in ids (summary_body iface) s)) = true.
Proof.
  induction ids as [|id ids IH]; intros s; simpl; [reflexivity|].
  unfold bind. rewrite summary_body_run.
  destruct (GetTaskTitle iface id s) as [[title|f] s1]; [|reflexivity].
  specialize (IH s1).
  destruct (for_in ids (summary_body iface) s1) as [[r s2] tr]. exact IH.
Qed.

Lemma for_in_no_exit (iface : Interface S) ids : forall s,
  uncaught (fst (fst (for_in ids (summary_body iface) s))) = true
  \/ fst (fst (for_in ids (summary_body iface) s)) = Ok tt.
Proof.
  induction ids as [|id ids IH]; intros s; simpl; [right; reflexivity|].
  unfold bind. rewrite summary_body_run.
  destruct (GetTaskTitle iface id s) as [[title|f] s1]; [|left; reflexivity].
  specialize (IH s1).
  destruct (for_in ids (summary_body iface) s1) as [[r s2] tr]. exact IH.
Qed.

(** What the three handlers have in common: they cause calls and printed
    lines only, and they end by returning or with an exception that is not
    SystemExit. *)
Lemma dispatch_command_events (iface : Interface S) ns s :
  forallb command_event (snd (dispatch (Some iface) ns s)) = true.
Proof.
  unfold dispatch. destruct (ns !! "action") as [action|]; [|reflexivity].
  destruct (value_eqb action (VStr "task")).
  - rewrite cli_task_cases.
    destruct (ns !! "task_id") as [[|z|w|l]|]; try reflexivity.
    + destruct (ListTaskIDs iface s) as [[ids|f] s1]; [|reflexivity].
      pose proof (for_in_command_events iface ids s1) as H.
      destruct (for_in ids (summary_body iface) s1) as [[r s2] tr]. exact H.
    + destruct (GetTaskTitle iface z s) as [[title|f] s1]; reflexivity.
  - destruct (value_eqb action (VStr "status")); [reflexivity|].
    destruct (value_eqb action (VStr "result")); reflexivity.
Qed.

Lemma dispatch_no_exit (iface : Interface S) ns s :
  uncaught (fst (fst (dispatch (Some iface) ns s))) = true
  \/ fst (fst (dispatch (Some iface) ns s)) = Ok tt.
Proof.
  unfold dispatch. destruct (ns !! "action") as [action|]; [|left; reflexivity].
  destruct (value_eqb action (VStr "task")).
  - rewrite cli_task_cases.
    destruct (ns !! "task_id") as [[|z|w|l]|]; try (left; reflexivity).
    + destruct (ListTaskIDs iface s) as [[ids|f] s1]; [|left; reflexivity].
      pose proof (for_in_no_exit iface ids s1) as H.
      destruct (for_in ids (summary_body iface) s1) as [[r s2] tr]. exact H.
    + destruct (GetTaskTitle iface z s) as [[title|f] s1];
        [right|left]; reflexivity.
  - destruct (value_eqb action (VStr "status")); [right; reflexivity|].
    destruct (value_eqb action (VStr "result")); [right|left]; reflexivity.
Qed.

End HandlerFacts.

Lemma command_events_silent tr :
  forallb command_event tr = true ->
  ~ In EvThreadsInit tr /\ ~ In EvSessionBus tr /\ ~ In EvParseArgs tr
  /\ (forall b p, ~ In (EvGetObject b p) tr)
  /\ (forall e, ~ In (EvUsage e) tr) /\ ~ In EvHelp tr.
Proof.
  intros H. rewrite forallb_forall in H.
  repeat split; repeat intro;
    match goal with
    | Hin : In _ _ |- _ => apply H in Hin; discriminate Hin
    end.
Qed.

Lemma occurrences_app p tr1 tr2 : occurrences p (tr1 ++ tr2) = occurrences p tr1 + occurrences p tr2.
Proof. induction tr1 as [|ev tr1 IH]; simpl; [reflexivity|]. rewrite IH. lia. Qed.

Lemma occurrences_none p q tr :
  (forall ev, q ev = true -> p ev = false) ->
  forallb q tr = true -> occurrences p tr = 0.
Proof.
  intros Hpq. induction tr as [|ev tr IH]; simpl; [reflexivity|].
  intros H. apply andb_true_iff in H as [Hev Htr].
  rewrite (Hpq _ Hev), IH by exact Htr. reflexivity.
Qed.

(** The events of a run: those of the connection attempt, then nothing,
    or the line about the failed connection, or the reading of the command
    line followed by the help, by the usage message or by the events of a
    handler. *)
Lemma main_trace {S} int_of_str (host : Host S) argv s :
  exists r0 tr0 tail,
    get_dbus_interface host s = (r0, s, tr0)
    /\ snd (main int_of_str host argv s) = tr0 ++ tail
    /\ (tail = []
        \/ (exists line, tail = [EvPrint line])
        \/ tail = [EvParseArgs]
        \/ tail = [EvParseArgs; EvHelp]
        \/ (exists e, tail = [EvParseArgs; EvUsage e])
        \/ exists tr1,
             tail = EvParseArgs :: tr1 /\ forallb command_event tr1 = true).
Proof.
  destruct (get_dbus_interface host s) as [[r0 s0] tr0] eqn:Hc.
  destruct (connection_silent _ _ _ _ _ Hc) as (-> & _).
  exists r0, tr0.
  destruct r0 as [[iface|]|e].
  - rewrite (main_connected _ _ _ _ _ _ _ Hc).
    destruct (argparse.parse_args int_of_str subparsers argv)
      as [ns| |e|[|w|w]].
    + pose proof (dispatch_command_events iface ns s) as Hev.
      destruct (dispatch (Some iface) ns s) as [[r1 s1] tr1].
      eexists. split; [reflexivity|]. split; [reflexivity|].
      do 5 right. exists tr1. split; [reflexivity|exact Hev].
    + eexists. split; [reflexivity|]. split; [reflexivity|]. auto.
    + eexists. split; [reflexivity|]. split; [reflexivity|].
      do 4 right. left. eauto.
    + eexists. split; [reflexivity|]. split; [reflexivity|]. auto.
    + eexists. split; [reflexivity|]. split; [reflexivity|]. auto.
    + eexists. split; [reflexivity|]. split; [reflexivity|]. auto.
  - rewrite (main_no_interface _ _ _ _ _ _ Hc).
    eexists. split; [reflexivity|]. split; [reflexivity|]. right. left. eauto.
  - rewrite (main_connect_raises _ _ _ _ _ _ _ Hc).
    exists []. split; [reflexivity|]. rewrite app_nil_r. auto.
Qed.

Lemma get_dbus_interface_events {S} (host : Host S) s r0 s0 tr0 :
  get_dbus_interface host s = (r0, s0, tr0) ->
  tr0 = [EvThreadsInit; EvSessionBus]
  \/ tr0 = [EvThreadsInit; EvSessionBus;
            EvGetObject (BUS_NAME host) (OBJECT_PATH host)].
Proof.
  unfold get_dbus_interface, bind, emit, local, ret.
  destruct (dbus_SessionBus host) as [[bus|]|e]; simpl.
  - destruct (get_object bus (BUS_NAME host) (OBJECT_PATH host))
      as [[obj|]|e]; simpl; intros [= <- <- <-]; auto.
  - intros [= <- <- <-]; auto.
  - intros [= <- <- <-]; auto.
Qed.

Lemma uncaught_exit_status r : uncaught r = true -> exit_status r = 1%Z.
Proof. destruct r as [[]|[]]; simpl; congruence. Qed.

(** ** The shape of the namespace *)

Section NamespaceShape.

Import argparse.

Variable int_of_str : string -> option Z.

Lemma get_values_optional_int a args v :
  type a = TypeInt -> nargs a = NargsOptional -> choices a = None ->
  default a = VNone ->
  length (remove_first "--" args) <= 1 ->
  _get_values int_of_str a args = Done v ->
  v = VNone \/ exists z, v = VInt z.
Proof.
  intros Ht Hn Hc Hd Hlen. unfold _get_values. rewrite Hn, Hd.
  destruct (remove_first "--" args) as [|w [|w' l]]; simpl in Hlen; [| |lia].
  - intros [= <-]. left. reflexivity.
  - unfold _get_value, _check_value. rewrite Ht, Hc.
    destruct (int_of_str w) as [z|]; simpl; [|discriminate].
    intros [= <-]. right. exists z. reflexivity.
Qed.

Lemma task_parser_task_id args ns extras :
  parse_known_args_sub int_of_str task_parser args = Done (ns, extras) ->
  none_or_int ns "task_id".
Proof.
  apply (sub_parser_inv int_of_str task_parser
           (fun ns => none_or_int ns "task_id")).
  - left. vm_compute. reflexivity.
  - intros a ns0 q k ns' Ha HJ Hd Hk Ht. simpl in Ha.
    destruct Ha as [<-|[]].
    destruct (take_action_store_dest _ _ _ _ _ Ht) as (v & Hv & Hl).
    apply get_values_optional_int in Hv; try reflexivity.
    + unfold none_or_int. cbn [dest] in Hl. rewrite Hl.
      destruct Hv as [->|[z ->]]; eauto.
    + eapply slice_one_word; eauto. discriminate.
  - intros ns0 HJ. unfold none_or_int in *.
    rewrite lookup_delete_ne by discriminate. exact HJ.
Qed.

Lemma result_parser_result_id args ns extras :
  parse_known_args_sub int_of_str result_parser args = Done (ns, extras) ->
  none_or_int ns "result_id".
Proof.
  apply (sub_parser_inv int_of_str result_parser
           (fun ns => none_or_int ns "result_id")).
  - left. vm_compute. reflexivity.
  - intros a ns0 q k ns' Ha HJ Hd Hk Ht. simpl in Ha.
    destruct Ha as [<-|[<-|[<-|[]]]].
    + unfold none_or_int.
      rewrite (take_action_store_other _ _ _ _ _ "result_id" Ht)
        by discriminate.
      exact HJ.
    + destruct (take_action_store_dest _ _ _ _ _ Ht) as (v & Hv & Hl).
      apply get_values_optional_int in Hv; try reflexivity.
      * unfold none_or_int. cbn [dest result_id_arg] in Hl. rewrite Hl.
        destruct Hv as [->|[z ->]]; eauto.
      * eapply slice_one_word; eauto. discriminate.
    + unfold none_or_int.
      rewrite (take_action_store_other _ _ _ _ _ "result_id" Ht)
        by discriminate.
      exact HJ.
  - intros ns0 HJ. unfold none_or_int in *.
    rewrite lookup_delete_ne by discriminate. exact HJ.
Qed.

Lemma sub_parser_args_ok n p args ns extras :
  In (n, p) subparsers ->
  parse_known_args_sub int_of_str p args = Done (ns, extras) ->
  args_ok ns.
Proof.
  intros Hin Hp. pose proof (sub_parser_action _ _ _ _ _ _ Hin Hp) as Ha.
  simpl in Hin. unfold args_ok.
  destruct Hin as [[= <- <-]|[[= <- <-]|[[= <- <-]|[]]]]; auto.
  - left. split; [exact Ha|]. eapply task_parser_task_id; eauto.
  - right. right. split; [exact Ha|].
    split; [eapply result_parser_result_id; eauto|].
    eapply result_parser_format; eauto.
Qed.

Lemma args_ok_extends ns ns' : args_ok ns -> extends ns ns' -> args_ok ns'.
Proof.
  unfold args_ok, none_or_int, format_ok, extends. intros H E.
  assert (L : forall k v, ns !! k = Some v ->
                k <> _UNRECOGNIZED_ARGS_ATTR -> ns' !! k = Some v)
    by (intros; eauto).
  destruct H as [[Ha Ht]|[Ha|(Ha & Hr & Hf)]].
  - left. split; [apply L; [exact Ha|discriminate]|].
    destruct Ht as [Ht|[z Ht]]; [left|right; exists z];
      (apply L; [exact Ht|discriminate]).
  - right. left. apply L; [exact Ha|discriminate].
  - right. right. split; [apply L; [exact Ha|discriminate]|].
    split.
    + destruct Hr as [Hr|[y Hr]]; [left|right; exists y];
        (apply L; [exact Hr|discriminate]).
    + destruct Hf as [Hf|Hf]; [left|right];
        (apply L; [exact Hf|discriminate]).
Qed.

Lemma subparsers_call_args_ok a ns values ns' :
  subparsers_call int_of_str subparsers a ns values = Done ns' ->
  args_ok ns'.
Proof.
  unfold subparsers_call.
  destruct values as [| | |[|[| |parser_name|] arg_values]]; try discriminate.
  destruct (find_parser parser_name subparsers) as [parser|] eqn:Hf;
    [|discriminate].
  apply find_parser_In in Hf.
  destruct (strings_of arg_values) as [arg_strings|]; [|discriminate].
  destruct (parse_known_args_sub int_of_str parser arg_strings)
    as [[subns extras]| |e|e] eqn:Hp; simpl; try discriminate.
  pose proof (sub_parser_args_ok _ _ _ _ _ Hf Hp) as Hok.
  set (ns0 := if String.eqb (dest a) SUPPRESS then ns
              else <[dest a := VStr parser_name]> ns).
  assert (Hu : args_ok (subns ∪ ns0)).
  { apply (args_ok_extends subns); [exact Hok|].
    intros k v _ Hk. apply lookup_union_Some_l. exact Hk. }
  destruct extras; [intros [= <-]; exact Hu|].
  destruct ((subns ∪ ns0) !! _UNRECOGNIZED_ARGS_ATTR) as [[| | |old]|];
    try discriminate; intros [= <-];
    (apply (args_ok_extends (subns ∪ ns0)); [exact Hu|];
     intros k v Hne Hk; rewrite lookup_insert_ne by congruence; exact Hk).
Qed.

(** Every command line that [parse_args] accepts gives the handlers a
    namespace of one of the three shapes. *)
Lemma parse_args_args_ok argv ns :
  parse_args int_of_str subparsers argv = Done ns -> args_ok ns.
Proof.
  unfold parse_args, parse_known_args.
  destruct (_parse_known_args int_of_str
              (subparsers_call int_of_str subparsers) argv
              [subparsers_action subparsers] ∅)
    as [[ns1 extras1]| |e|e] eqn:Hp; simpl; try discriminate.
  assert (Hok : args_ok ns1).
  { assert (Hinv : [] = [subparsers_action subparsers]
                   \/ ([] = @nil Action /\ args_ok ns1)).
    { refine (_parse_known_args_inv int_of_str
                (subparsers_call int_of_str subparsers)
                (fun pending ns =>
                   pending = [subparsers_action subparsers]
                   \/ (pending = [] /\ args_ok ns))
                _ _ _ _ _ _ _ Hp).
      - intros a rest ns0 q k ns' [[= -> ->]|[[=] _]] _ _ Ht. right.
        split; [reflexivity|].
        unfold take_action in Ht.
        destruct (_get_values int_of_str (subparsers_action subparsers) _)
          as [v| |e|e]; simpl in Ht; try discriminate.
        eapply subparsers_call_args_ok; eauto.
      - left. reflexivity. }
    destruct Hinv as [[=]|[_ H]]. exact H. }
  assert (Hdel : args_ok (delete _UNRECOGNIZED_ARGS_ATTR ns1)).
  { apply (args_ok_extends ns1); [exact Hok|].
    intros k v Hne Hk. rewrite lookup_delete_ne by congruence. exact Hk. }
  unfold pop_unrecognized. simpl.
  destruct (ns1 !! _UNRECOGNIZED_ARGS_ATTR) as [[| |w|l]|]; simpl;
    try discriminate.
  - destruct (extras1 ++ _); [|discriminate]. intros [= <-]. exact Hdel.
  - destruct (strings_of l) as [ws|]; simpl; [|discriminate].
    destruct (extras1 ++ ws); [|discriminate]. intros [= <-]. exact Hdel.
  - destruct extras1; [|discriminate]. intros [= <-]. exact Hok.
Qed.

End NamespaceShape.

(** ** Exceptions of the parser *)

Section LoopSafety.

Import argparse.

Variable int_of_str : string -> option Z.
Variable call : Action -> Namespace -> value -> outcome Namespace.
Variable Inv : list Action -> Namespace -> Prop.

Hypothesis Inv_step : forall a rest ns p k ns',
  Inv (a :: rest) ns ->
  dashes p <= 1 ->
  In k (group_candidates (nargs a) p) ->
  take_action int_of_str call a (map arg_string (take k p)) ns = Done ns' ->
  Inv rest ns'.

Hypothesis Safe_step : forall a rest ns p k,
  Inv (a :: rest) ns ->
  dashes p <= 1 ->
  In k (group_candidates (nargs a) p) ->
  benign (take_action int_of_str call a (map arg_string (take k p)) ns).

Lemma benign_obind {A B} (m : outcome A) (k : A -> outcome B) :
  benign m -> (forall a, m = Done a -> benign (k a)) -> benign (obind m k).
Proof.
  destruct m as [a| |e|[|w|w]]; simpl; auto.
Qed.

Lemma take_actions_safe actions : forall counts j ts ns,
  valid_counts (map nargs (take j actions)) ts counts ->
  dashes ts <= 1 ->
  Inv actions ns ->
  benign (take_actions int_of_str call actions counts ts ns).
Proof.
  induction actions as [|a actions IH]; intros counts j ts ns Hv Hd Hi.
  - destruct counts; exact I.
  - destruct counts as [|k counts]; [exact I|].
    destruct j as [|j]; simpl in Hv; [contradiction|].
    destruct Hv as [Hk Hv]. cbn [take_actions].
    apply benign_obind; [eapply Safe_step; eauto|].
    intros ns1 Ht. apply (IH counts j); auto.
    + pose proof (dashes_drop k ts). lia.
    + eapply Inv_step; eauto.
Qed.

Lemma consume_positionals_safe ts pending ns :
  dashes ts <= 1 -> Inv pending ns ->
  benign (consume_positionals int_of_str call ts pending ns).
Proof.
  intros Hd Hi. unfold consume_positionals, _match_arguments_partial.
  destruct (match_slices_valid (length pending) pending ts) as [j Hv].
  apply benign_obind; [eapply take_actions_safe; eauto|].
  intros r _. exact I.
Qed.

Lemma more_short_options_benign e : benign (more_short_options e).
Proof.
  induction e as [|c rest IH]; [exact I|].
  cbn [more_short_options].
  destruct (in_strings (String "-" (String c EmptyString)) option_strings);
    [|exact I].
  destruct rest; [exact I|exact IH].
Qed.

Lemma consume_optional_benign s t extras :
  benign (consume_optional s t extras).
Proof.
  unfold consume_optional.
  destruct (option_string t) as [o|]; [|exact I].
  destruct (explicit_arg t) as [e|]; [|exact I].
  destruct (String.get 1 o) as [c|].
  - destruct (Ascii.eqb c "-") eqn:Hc.
    + apply Ascii.eqb_eq in Hc as ->. exact I.
    + assert (H : benign (_ <-- more_short_options e ;;; @Help (list string))).
      { apply benign_obind; [apply more_short_options_benign|].
        intros; exact I. }
      destruct c as [[] [] [] [] [] [] [] []]; try exact H; discriminate Hc.
  - apply benign_obind; [apply more_short_options_benign|]. intros; exact I.
Qed.

Lemma loop_step_safe st :
  loop_inv Inv st -> benign (loop_step int_of_str call st).
Proof.
  intros [Hd Hi]. unfold loop_step.
  destruct (next_option (toks st)) as [[[before [s t]] rest]|] eqn:Hn;
    [|exact I].
  destruct before as [|b before].
  - apply benign_obind; [apply consume_optional_benign|]. intros; exact I.
  - apply benign_obind; [apply consume_positionals_safe; assumption|].
    intros [[ts' pending'] ns'] _.
    destruct (length ts' <? length (toks st))%nat; [exact I|].
    apply benign_obind; [apply consume_optional_benign|]. intros; exact I.
Qed.

Lemma run_loop_safe st :
  loop_inv Inv st -> benign (run_loop int_of_str call st).
Proof.
  remember (length (toks st)) as n eqn:Hn.
  revert st Hn. induction n as [n IH] using lt_wf_ind.
  intros st Hn Hinv. rewrite run_loop_step.
  pose proof (loop_step_safe st Hinv) as Hs.
  destruct (loop_step int_of_str call st) as [[st1|]| |e|e] eqn:Hstep;
    try exact I; try exact Hs.
  apply (IH (length (toks st1))) with (st := st1); auto.
  - subst n. apply (loop_step_decreases _ _ _ _ Hstep).
  - eapply loop_step_inv; eauto.
Qed.

Lemma classify_benign arg_strings : benign (classify arg_strings).
Proof. destruct (classify_total arg_strings) as [ts ->]. exact I. Qed.

Lemma _parse_known_args_safe arg_strings positionals ns :
  Inv positionals ns ->
  benign (_parse_known_args int_of_str call arg_strings positionals ns).
Proof.
  intros Hi. unfold _parse_known_args.
  apply benign_obind; [apply classify_benign|]. intros ts Hc.
  assert (Hinv : loop_inv Inv {| toks := ts; pending := positionals;
                                 namespace := ns; extras := [] |})
    by (split; simpl; eauto using classify_dashes).
  apply benign_obind; [apply run_loop_safe; exact Hinv|]. intros st Hr.
  apply (run_loop_inv int_of_str call Inv Inv_step) in Hr; [|exact Hinv].
  destruct Hr as [Hd Hp].
  apply benign_obind; [apply consume_positionals_safe; assumption|].
  intros [[ts' pending'] ns'] _. destruct pending'; exact I.
Qed.

End LoopSafety.

Section ParserSafety.

Import argparse.

Variable int_of_str : string -> option Z.

Lemma _get_value_benign a w : benign (_get_value int_of_str a w).
Proof.
  unfold _get_value. destruct (type a); [exact I|].
  destruct (int_of_str w); exact I.
Qed.

Lemma _check_value_benign a v : benign (_check_value a v).
Proof.
  unfold _check_value. destruct (choices a) as [cs|]; [|exact I].
  destruct (existsb (value_eqb v) cs); exact I.
Qed.

Lemma get_each_benign a ws : benign (get_each int_of_str a ws).
Proof.
  induction ws as [|w ws IH]; simpl; [exact I|].
  apply benign_obind; [apply _get_value_benign|]. intros v _.
  apply benign_obind; [exact IH|]. intros; exact I.
Qed.

Lemma check_each_benign a vs : benign (check_each a vs).
Proof.
  induction vs as [|v vs IH]; simpl; [exact I|].
  apply benign_obind; [apply _check_value_benign|]. intros; exact IH.
Qed.

Lemma value_checked_benign a w :
  benign (v <-- _get_value int_of_str a w ;;;
          _ <-- _check_value a v ;;; Done v).
Proof.
  apply benign_obind; [apply _get_value_benign|]. intros v _.
  apply benign_obind; [apply _check_value_benign|]. intros; exact I.
Qed.

Lemma values_checked_benign a ws :
  benign (vs <-- get_each int_of_str a ws ;;;
          _ <-- check_each a vs ;;; Done (VList vs)).
Proof.
  apply benign_obind; [apply get_each_benign|]. intros vs _.
  apply benign_obind; [apply check_each_benign|]. intros; exact I.
Qed.

Lemma _get_values_benign a args : benign (_get_values int_of_str a args).
Proof.
  unfold _get_values.
  set (ws := match nargs a with
             | NargsParser => args
             | _ => remove_first "--" args
             end).
  assert (Hp : benign (vs <-- get_each int_of_str a ws ;;;
                       match vs with
                       | v0 :: _ => _ <-- _check_value a v0 ;;; Done (VList vs)
                       | [] => Crash CrashIndexError
                       end)).
  { apply benign_obind; [apply get_each_benign|]. intros [|v0 vs] _;
      [exact I|].
    apply benign_obind; [apply _check_value_benign|]. intros; exact I. }
  pose proof (values_checked_benign a ws) as Hl.
  destruct ws as [|w [|w' l]]; destruct (nargs a);
    try exact Hp; try exact Hl; try apply value_checked_benign.
  destruct (default a); try exact I. apply value_checked_benign.
Qed.

Lemma take_action_store_benign a args ns :
  benign (take_action int_of_str store a args ns).
Proof.
  unfold take_action.
  apply benign_obind; [apply _get_values_benign|]. intros; exact I.
Qed.

(** A sub-parser neither dies of a TypeError or an AttributeError nor
    leaves unrecognised words in the namespace it returns. *)
Lemma sub_parser_safe n p args :
  In (n, p) subparsers ->
  benign (parse_known_args_sub int_of_str p args)
  /\ forall ns extras,
       parse_known_args_sub int_of_str p args = Done (ns, extras) ->
       ns !! _UNRECOGNIZED_ARGS_ATTR = None.
Proof.
  intros Hin.
  set (Inv := fun (pending : list Action) (ns : Namespace) =>
                (forall a, In a pending -> dest a <> _UNRECOGNIZED_ARGS_ATTR)
                /\ ns !! _UNRECOGNIZED_ARGS_ATTR = None).
  assert (Hstep : forall a rest ns q k ns',
            Inv (a :: rest) ns -> dashes q <= 1 ->
            In k (group_candidates (nargs a) q) ->
            take_action int_of_str store a (map arg_string (take k q)) ns
            = Done ns' ->
            Inv rest ns').
  { intros a rest ns q k ns' [Hd Hu] _ _ Ht. split.
    - intros b Hb. apply Hd. right. exact Hb.
    - rewrite (take_action_store_other _ _ _ _ _ _UNRECOGNIZED_ARGS_ATTR Ht);
        [exact Hu|].
      apply Hd. left. reflexivity. }
  assert (H0 : Inv (positionals p) (add_defaults p ∅)).
  { simpl in Hin.
    destruct Hin as [[= <- <-]|[[= <- <-]|[[= <- <-]|[]]]]; split;
      try (vm_compute; reflexivity);
      intros a Ha; simpl in Ha;
      repeat (destruct Ha as [<-|Ha]; [discriminate|]); contradiction. }
  unfold parse_known_args_sub.
  pose proof (_parse_known_args_safe int_of_str store Inv Hstep
                (fun a rest ns q k _ _ _ =>
                   take_action_store_benign a _ ns)
                args (positionals p) (add_defaults p ∅) H0) as Hsafe.
  pose proof (_parse_known_args_inv int_of_str store Inv Hstep
                args (positionals p) (add_defaults p ∅)) as Hinv.
  destruct (_parse_known_args int_of_str store args (positionals p)
              (add_defaults p ∅)) as [[ns1 extras1]| |e|e]; simpl.
  - destruct (Hinv ns1 extras1 H0 eq_refl) as [_ Hu].
    unfold pop_unrecognized. simpl. rewrite Hu. split; [exact I|].
    intros ns extras [= <- _]. exact Hu.
  - split; [exact I|discriminate].
  - split; [exact I|discriminate].
  - split; [exact Hsafe|discriminate].
Qed.

Lemma unrecognized_ok_insert ns ws :
  unrecognized_ok (<[_UNRECOGNIZED_ARGS_ATTR := VList (map VStr ws)]> ns).
Proof. right. exists ws. apply lookup_insert_eq. Qed.

(** The sub-command action on the words of a command line, starting from
    the empty namespace. *)
Lemma subparsers_call_safe w ws :
  benign (subparsers_call int_of_str subparsers
            (subparsers_action subparsers) ∅ (VList (map VStr (w :: ws))))
  /\ forall ns',
       subparsers_call int_of_str subparsers (subparsers_action subparsers) ∅
         (VList (map VStr (w :: ws))) = Done ns' ->
       unrecognized_ok ns'.
Proof.
  unfold subparsers_call. cbn [map].
  destruct (find_parser w subparsers) as [parser|] eqn:Hf;
    [|split; [exact I|discriminate]].
  apply find_parser_In in Hf.
  rewrite strings_of_strings.
  destruct (sub_parser_safe _ _ ws Hf) as [Hsafe Hu].
  destruct (parse_known_args_sub int_of_str parser ws)
    as [[subns extras]| |e|e]; simpl;
    try (split; [first [exact I|exact Hsafe]|discriminate]).
  specialize (Hu _ _ eq_refl).
  change (String.eqb (dest (subparsers_action subparsers)) SUPPRESS)
    with true.
  cbv iota. rewrite (right_id_L ∅ (∪)), Hu.
  destruct extras as [|x xs]; (split; [exact I|]); intros ns' [= <-].
  - left. exact Hu.
  - apply (unrecognized_ok_insert subns (x :: xs)).
Qed.

Lemma take_subcommand_safe args ns' :
  benign (take_action int_of_str (subparsers_call int_of_str subparsers)
            (subparsers_action subparsers) args ∅)
  /\ (take_action int_of_str (subparsers_call int_of_str subparsers)
        (subparsers_action subparsers) args ∅ = Done ns' ->
      unrecognized_ok ns').
Proof.
  unfold take_action, _get_values. cbn [nargs subparsers_action].
  rewrite get_each_str by reflexivity. cbn [obind].
  destruct args as [|w ws].
  - cbn. split; [exact I|discriminate].
  - assert (H : benign
              (argument_values <--
                 (_ <-- _check_value (subparsers_action subparsers) (VStr w) ;;;
                  Done (VList (map VStr (w :: ws)))) ;;;
               subparsers_call int_of_str subparsers
                 (subparsers_action subparsers) ∅ argument_values)
              /\ ((argument_values <--
                     (_ <-- _check_value (subparsers_action subparsers)
                              (VStr w) ;;;
                      Done (VList (map VStr (w :: ws)))) ;;;
                   subparsers_call int_of_str subparsers
                     (subparsers_action subparsers) ∅ argument_values)
                  = Done ns' -> unrecognized_ok ns')).
    { destruct (_check_value (subparsers_action subparsers) (VStr w))
        as [[]| |e|e] eqn:Hc; cbn [obind].
      - destruct (subparsers_call_safe w ws) as [Hs Hu]. split; auto.
      - split; [exact I|discriminate].
      - split; [exact I|discriminate].
      - pose proof (_check_value_benign (subparsers_action subparsers)
                      (VStr w)) as Hb.
        rewrite Hc in Hb. split; [exact Hb|discriminate]. }
    destruct ws; exact H.
Qed.

(** [parse_args] of the client's parser never dies of a TypeError or of an
    AttributeError. *)
Lemma parse_args_benign argv : benign (parse_args int_of_str subparsers argv).
Proof.
  unfold parse_args, parse_known_args.
  set (Inv := fun (pending : list Action) (ns : Namespace) =>
                (pending = [subparsers_action subparsers] /\ ns = ∅)
                \/ (pending = [] /\ unrecognized_ok ns)).
  assert (Hstep : forall a rest ns q k ns',
            Inv (a :: rest) ns -> dashes q <= 1 ->
            In k (group_candidates (nargs a) q) ->
            take_action int_of_str (subparsers_call int_of_str subparsers)
              a (map arg_string (take k q)) ns = Done ns' ->
            Inv rest ns').
  { intros a rest ns q k ns' [[[= -> ->] ->]|[[=] _]] _ _ Ht. right.
    split; [reflexivity|].
    eapply (proj2 (take_subcommand_safe _ ns')). exact Ht. }
  assert (Hsafe : forall a rest ns q k,
            Inv (a :: rest) ns -> dashes q <= 1 ->
            In k (group_candidates (nargs a) q) ->
            benign (take_action int_of_str
                      (subparsers_call int_of_str subparsers)
                      a (map arg_string (take k q)) ns)).
  { intros a rest ns q k [[[= -> ->] ->]|[[=] _]] _ _.
    apply (proj1 (take_subcommand_safe _ ∅)). }
  assert (H0 : Inv [subparsers_action subparsers] ∅)
    by (left; split; reflexivity).
  pose proof (_parse_known_args_safe int_of_str _ Inv Hstep Hsafe
                argv _ _ H0) as Hb.
  pose proof (_parse_known_args_inv int_of_str _ Inv Hstep
                argv [subparsers_action subparsers] ∅) as Hinv.
  destruct (_parse_known_args int_of_str
              (subparsers_call int_of_str subparsers) argv
              [subparsers_action subparsers] ∅)
    as [[ns1 extras1]| |e|e]; cbn [obind]; try exact I; try exact Hb.
  destruct (Hinv ns1 extras1 H0 eq_refl) as [[[=] _]|[_ Hu]].
  unfold pop_unrecognized. cbn [fst snd].
  destruct Hu as [->|[ws ->]].
  - cbn [obind snd]. destruct extras1; exact I.
  - rewrite strings_of_strings. cbn [obind snd fst].
    destruct (extras1 ++ ws); exact I.
Qed.

End ParserSafety.

(** ** Runs after a successful connection *)

Section ConnectedRuns.

Context {S : Type}.
Variable int_of_str : string -> option Z.

Lemma main_usage (host : Host S) argv s iface s0 tr0 e :
  get_dbus_interface host s = (Ok (Some iface), s0, tr0) ->
  argparse.parse_args int_of_str subparsers argv = argparse.Error e ->
  main int_of_str host argv s
  = (Raise (SystemExit 2), s0, tr0 ++ [EvParseArgs; EvUsage e]).
Proof.
  intros Hc Hp. rewrite (main_connected _ _ _ _ _ _ _ Hc), Hp. reflexivity.
Qed.

Lemma main_help (host : Host S) argv s iface s0 tr0 :
  get_dbus_interface host s = (Ok (Some iface), s0, tr0) ->
  argparse.parse_args int_of_str subparsers argv = argparse.Help ->
  main int_of_str host argv s
  = (Raise (SystemExit 0), s0, tr0 ++ [EvParseArgs; EvHelp]).
Proof.
  intros Hc Hp. rewrite (main_connected _ _ _ _ _ _ _ Hc), Hp. reflexivity.
Qed.

Lemma main_task (host : Host S) argv s iface s0 tr0 v :
  get_dbus_interface host s = (Ok (Some iface), s0, tr0) ->
  argparse.parse_args int_of_str subparsers argv
  = argparse.Done (task_namespace v) ->
  main int_of_str host argv s
  = let '(r, s1, tr1) := cli_task (Some iface) (task_namespace v) s0 in
    (r, s1, tr0 ++ EvParseArgs :: tr1).
Proof.
  intros Hc Hp. rewrite (main_connected _ _ _ _ _ _ _ Hc), Hp.
  rewrite (dispatch_task _ _ (proj1 (proj2 (task_namespace_lookup v)))).
  reflexivity.
Qed.

End ConnectedRuns.

Lemma parse_args_task_none int_of_str :
  argparse.parse_args int_of_str subparsers ["task"]
  = argparse.Done (task_namespace VNone).
Proof.
  apply (parse_args_sub_done int_of_str "task" task_parser [] _ []).
  - reflexivity.
  - constructor.
  - reflexivity.
  - apply sub_task_none.
  - apply task_namespace_lookup.
Qed.

Lemma parse_args_task_word int_of_str w ws :
  plain w -> Forall plain ws ->
  argparse.parse_args int_of_str subparsers ("task" :: w :: ws) =
    match int_of_str w with
    | None => argparse.Error (argparse.InvalidValue w)
    | Some z =>
        match ws with
        | [] => argparse.Done (task_namespace (VInt z))
        | _ :: _ => argparse.Error (argparse.UnrecognizedArguments ws)
        end
    end.
Proof.
  intros Hw Hws.
  pose proof (sub_task_words int_of_str w ws Hw Hws) as Hsub.
  destruct (int_of_str w) as [z|].
  - apply (parse_args_sub_done int_of_str "task" task_parser (w :: ws) _ ws).
    + reflexivity.
    + constructor; assumption.
    + reflexivity.
    + exact Hsub.
    + apply task_namespace_lookup.
  - apply (parse_args_sub_error int_of_str "task" task_parser (w :: ws)).
    + reflexivity.
    + constructor; assumption.
    + reflexivity.
    + exact Hsub.
Qed.

Lemma parse_args_status int_of_str ws :
  Forall plain ws ->
  argparse.parse_args int_of_str subparsers ("status" :: ws) =
    match ws with
    | [] => argparse.Done status_namespace
    | _ :: _ => argparse.Error (argparse.UnrecognizedArguments ws)
    end.
Proof.
  intros Hws.
  apply (parse_args_sub_done int_of_str "status" status_parser ws _ ws).
  - reflexivity.
  - exact Hws.
  - reflexivity.
  - apply sub_status_words. exact Hws.
  - vm_compute. reflexivity.
Qed.

Lemma parse_args_result_many int_of_str t r f ws a b :
  plain t -> plain r -> plain f -> Forall plain ws ->
  int_of_str t = Some a -> int_of_str r = Some b ->
  f = "arf" \/ f = "html" ->
  argparse.parse_args int_of_str subparsers ("result" :: t :: r :: f :: ws) =
    match ws with
    | [] => argparse.Done (result_namespace (VInt a) (VInt b) (VStr f))
    | _ :: _ => argparse.Error (argparse.UnrecognizedArguments ws)
    end.
Proof.
  intros Ht Hr Hf Hws Ha Hb Hc.
  pose proof (sub_result_words int_of_str t r f ws Ht Hr Hf Hws) as Hsub.
  rewrite Ha, Hb in Hsub.
  assert (Hin : argparse.in_strings f ["html"; "arf"] = true)
    by (destruct Hc as [-> | ->]; reflexivity).
  rewrite Hin in Hsub.
  apply (parse_args_sub_done int_of_str "result" result_parser
           (t :: r :: f :: ws) _ ws).
  - reflexivity.
  - repeat constructor; assumption.
  - reflexivity.
  - exact Hsub.
  - apply result_namespace_lookup.
Qed.

Lemma parse_args_result_none int_of_str :
  argparse.parse_args int_of_str subparsers ["result"]
  = argparse.Error argparse.TooFewArguments.
Proof.
  apply (parse_args_sub_error int_of_str "result" result_parser []).
  - reflexivity.
  - constructor.
  - reflexivity.
  - apply sub_result_none.
Qed.

Lemma parse_args_result_pair int_of_str t r :
  plain t -> plain r ->
  argparse.parse_args int_of_str subparsers ["result"; t; r] =
    match int_of_str t with
    | None => argparse.Error (argparse.InvalidValue t)
    | Some a =>
        match int_of_str r with
        | None => argparse.Error (argparse.InvalidValue r)
        | Some b =>
            argparse.Done (result_namespace (VInt a) (VInt b) (VStr "arf"))
        end
    end.
Proof.
  intros Ht Hr.
  pose proof (sub_result_2 int_of_str t r Ht Hr) as Hsub.
  assert (Hws : Forall plain [t; r]) by (repeat constructor; assumption).
  destruct (int_of_str t) as [a|];
    [destruct (int_of_str r) as [b|]|].
  - apply parse_args_result_done; [exact Hws|exact Hsub|].
    apply result_namespace_lookup.
  - apply parse_args_result_error; assumption.
  - apply parse_args_result_error; assumption.
Qed.

Lemma parse_args_empty int_of_str :
  argparse.parse_args int_of_str subparsers []
  = argparse.Error argparse.TooFewArguments.
Proof. vm_compute. reflexivity. Qed.

Lemma find_parser_other w :
  w <> "task" -> w <> "status" -> w <> "result" ->
  argparse.find_parser w subparsers = None.
Proof.
  intros H1 H2 H3. apply String.eqb_neq in H1, H2, H3.
  unfold subparsers, argparse.find_parser. rewrite H1, H2, H3. reflexivity.
Qed.

(** * Further properties of the client *)

(** ** The connection *)

(** X1.  When [dbus.SessionBus()] or [bus.get_object] raises, the
    exception leaves [get_dbus_interface] and [main] uncaught: the process
    ends with status 1 and a traceback, the line about the failed
    connection is not printed, the command line is not read and the daemon
    is not called. *)
Theorem connection_exception_uncaught {S} int_of_str (host : Host S) argv s f :
  dbus_SessionBus host = Fault f
  \/ (exists bus,
        dbus_SessionBus host = Reply (Some bus)
        /\ get_object bus (BUS_NAME host) (OBJECT_PATH host) = Fault f) ->
  let '(r, s', tr) := main int_of_str host argv s in
  r = Raise (DBusException f) /\ uncaught r = true /\ exit_status r = 1%Z
  /\ s' = s /\ printed tr = [] /\ calls tr = [] /\ ~ In EvParseArgs tr.
Proof.
  intros H.
  assert (Hc : exists tr0,
             get_dbus_interface host s = (Raise (DBusException f), s, tr0)).
  { unfold get_dbus_interface, bind, emit, local, ret.
    destruct H as [->|(bus & -> & Hb)]; simpl.
    - eexists. reflexivity.
    - rewrite Hb. simpl. eexists. reflexivity. }
  destruct Hc as [tr0 Hc].
  rewrite (main_connect_raises _ _ _ _ _ _ _ Hc).
  destruct (connection_silent _ _ _ _ _ Hc) as (_ & Hp & Hcl & Hn & _).
  repeat split; assumption.
Qed.

Lemma connection_exception_uncaught_witness :
  let '(r, s', tr) :=
    main int_decimal unreachable_host ["task"] two_tasks in
  r = Raise (DBusException
               (OtherFault "org.freedesktop.DBus.Error.NoServer"))
  /\ uncaught r = true /\ exit_status r = 1%Z
  /\ s' = two_tasks /\ printed tr = [] /\ calls tr = []
  /\ ~ In EvParseArgs tr.
Proof.
  apply (connection_exception_uncaught int_decimal unreachable_host ["task"]
           two_tasks).
  left. reflexivity.
Defined.

(** X2.  Every run makes one connection attempt: [dbus.SessionBus] is
    called exactly once, an object is looked up at most once and only at
    the daemon's bus name and object path, and the command line is read at
    most once. *)
Theorem one_connection_attempt {S} int_of_str (host : Host S) argv s :
  let '(r, s', tr) := main int_of_str host argv s in
  occurrences is_SessionBus tr = 1
  /\ occurrences is_GetObject tr <= 1
  /\ occurrences is_ParseArgs tr <= 1
  /\ forall bus_name path,
       In (EvGetObject bus_name path) tr ->
       bus_name = BUS_NAME host /\ path = OBJECT_PATH host.
Proof.
  destruct (main_trace int_of_str host argv s)
    as (r0 & tr0 & tail & Hc & Htr & Htail).
  destruct (main int_of_str host argv s) as [[r s'] tr]. simpl in Htr.
  subst tr. rewrite !occurrences_app.
  assert (Ht : occurrences is_SessionBus tail = 0 /\ occurrences is_GetObject tail = 0
               /\ occurrences is_ParseArgs tail <= 1
               /\ forall b p, ~ In (EvGetObject b p) tail).
  { destruct Htail as [->|[[line ->]|[->|[->|[[e ->]|(tr1 & -> & Hev)]]]]];
      try (repeat split; simpl; try lia;
           intros b p Hin; repeat destruct Hin as [Hin|Hin];
           solve [discriminate Hin|contradiction]).
    simpl.
    rewrite (occurrences_none is_SessionBus command_event),
      (occurrences_none is_GetObject command_event),
      (occurrences_none is_ParseArgs command_event); auto;
      try (intros []; simpl; congruence).
    repeat split; try lia.
    intros b p Hin. destruct Hin as [Hin|Hin]; [discriminate|].
    rewrite forallb_forall in Hev. apply Hev in Hin. discriminate. }
  destruct Ht as (T1 & T2 & T3 & T4).
  assert (Hobj : forall b p,
            In (EvGetObject b p) (tr0 ++ tail) ->
            b = BUS_NAME host /\ p = OBJECT_PATH host).
  { intros b p Hin. apply in_app_or in Hin as [Hin|Hin];
      [|exfalso; eapply T4; eassumption].
    destruct (get_dbus_interface_events _ _ _ _ _ Hc) as [->| ->];
      repeat destruct Hin as [Hin|Hin]; try discriminate; try contradiction.
    injection Hin as <- <-. auto. }
  assert (C : occurrences is_SessionBus tr0 = 1 /\ occurrences is_GetObject tr0 <= 1
              /\ occurrences is_ParseArgs tr0 = 0)
    by (destruct (get_dbus_interface_events _ _ _ _ _ Hc) as [->| ->];
        simpl; lia).
  destruct C as (C1 & C2 & C3).
  split; [lia|]. split; [lia|]. split; [lia|]. exact Hobj.
Qed.

(** ** The task command *)

(** X3.  [task <id>], for a plain word that [int()] accepts and a task
    that the daemon knows: the title is asked for once, before anything
    is printed, the list of ids is never asked for, the two lines [ID:]
    and [Title:] are printed in that order, and the process ends with
    status 0. *)
Theorem task_shows_id_and_title {S} int_of_str (host : Host S) s
    iface s0 tr0 w task_id title s1 :
  plain w -> int_of_str w = Some task_id ->
  get_dbus_interface host s = (Ok (Some iface), s0, tr0) ->
  GetTaskTitle iface task_id s0 = (Reply title, s1) ->
  let '(r, s', tr) := main int_of_str host ["task"; w] s in
  r = Ok tt /\ exit_status r = 0%Z /\ s' = s1
  /\ tr = tr0 ++ [EvParseArgs; EvCall (CallGetTaskTitle task_id);
                  EvPrint ("ID:" +:+ TAB +:+ string_of_Z task_id);
                  EvPrint ("Title:" +:+ TAB +:+ title)]
  /\ calls tr = [CallGetTaskTitle task_id]
  /\ printed tr = ["ID:" +:+ TAB +:+ string_of_Z task_id;
                   "Title:" +:+ TAB +:+ title].
Proof.
  intros Hw Hi Hc Hg.
  pose proof (parse_args_task_word int_of_str w [] Hw ltac:(constructor))
    as Hp.
  rewrite Hi in Hp.
  rewrite (main_task _ _ _ _ _ _ _ _ Hc Hp).
  rewrite (cli_task_one _ _ _ _ (proj1 (task_namespace_lookup _))), Hg.
  destruct (connection_silent _ _ _ _ _ Hc) as (_ & Hpr & Hcl & _).
  rewrite printed_app, calls_app, Hpr, Hcl. repeat split; reflexivity.
Qed.

Lemma task_shows_id_and_title_witness :
  let '(r, s', tr) := main int_decimal session_host ["task"; "2"] two_tasks in
  r = Ok tt /\ exit_status r = 0%Z /\ s' = two_tasks
  /\ tr = [EvThreadsInit; EvSessionBus; EvGetObject "BUS_NAME" "OBJECT_PATH"]
          ++ [EvParseArgs; EvCall (CallGetTaskTitle 2);
              EvPrint ("ID:" +:+ TAB +:+ string_of_Z 2);
              EvPrint ("Title:" +:+ TAB +:+ "Scan B")]
  /\ calls tr = [CallGetTaskTitle 2]
  /\ printed tr = ["ID:" +:+ TAB +:+ string_of_Z 2;
                   "Title:" +:+ TAB +:+ "Scan B"].
Proof.
  apply (task_shows_id_and_title int_decimal session_host two_tasks daemon
           two_tasks _ "2" 2%Z "Scan B" two_tasks).
  - reflexivity.
  - reflexivity.
  - reflexivity.
  - reflexivity.
Defined.

(** X4.  The operand of [task] must be an integer: for a plain word that
    [int()] refuses, whatever plain words follow, the parser reports the
    invalid value and the process ends with status 2; the daemon is not
    called and nothing is printed on standard output. *)
Theorem task_rejects_non_integer {S} int_of_str (host : Host S) s
    iface s0 tr0 w ws :
  plain w -> Forall plain ws -> int_of_str w = None ->
  get_dbus_interface host s = (Ok (Some iface), s0, tr0) ->
  let '(r, s', tr) := main int_of_str host ("task" :: w :: ws) s in
  r = Raise (SystemExit 2) /\ exit_status r = 2%Z /\ s' = s0
  /\ tr = tr0 ++ [EvParseArgs; EvUsage (argparse.InvalidValue w)]
  /\ calls tr = [] /\ printed tr = [].
Proof.
  intros Hw Hws Hi Hc.
  pose proof (parse_args_task_word int_of_str w ws Hw Hws) as Hp.
  rewrite Hi in Hp. rewrite (main_usage _ _ _ _ _ _ _ _ Hc Hp).
  destruct (connection_silent _ _ _ _ _ Hc) as (_ & Hpr & Hcl & _).
  rewrite printed_app, calls_app, Hpr, Hcl. repeat split; reflexivity.
Qed.

Lemma task_rejects_non_integer_witness :
  let '(r, s', tr) :=
    main int_decimal session_host ["task"; "first"] two_tasks in
  r = Raise (SystemExit 2) /\ exit_status r = 2%Z /\ s' = two_tasks
  /\ tr = [EvThreadsInit; EvSessionBus; EvGetObject "BUS_NAME" "OBJECT_PATH"]
          ++ [EvParseArgs; EvUsage (argparse.InvalidValue "first")]
  /\ calls tr = [] /\ printed tr = [].
Proof.
  apply (task_rejects_non_integer int_decimal session_host two_tasks daemon
           two_tasks _ "first" []).
  - reflexivity.
  - constructor.
  - reflexivity.
  - reflexivity.
Defined.

(** X5.  [task] takes one operand at most: after an integer, any further
    plain word makes the parser report the words left over, and the
    process ends with status 2 without a call to the daemon. *)
Theorem task_rejects_second_operand {S} int_of_str (host : Host S) s
    iface s0 tr0 w task_id x xs :
  plain w -> plain x -> Forall plain xs -> int_of_str w = Some task_id ->
  get_dbus_interface host s = (Ok (Some iface), s0, tr0) ->
  let '(r, s', tr) := main int_of_str host ("task" :: w :: x :: xs) s in
  r = Raise (SystemExit 2) /\ exit_status r = 2%Z /\ s' = s0
  /\ tr = tr0 ++ [EvParseArgs;
                  EvUsage (argparse.UnrecognizedArguments (x :: xs))]
  /\ calls tr = [] /\ printed tr = [].
Proof.
  intros Hw Hx Hxs Hi Hc.
  pose proof (parse_args_task_word int_of_str w (x :: xs) Hw
                ltac:(constructor; assumption)) as Hp.
  rewrite Hi in Hp. rewrite (main_usage _ _ _ _ _ _ _ _ Hc Hp).
  destruct (connection_silent _ _ _ _ _ Hc) as (_ & Hpr & Hcl & _).
  rewrite printed_app, calls_app, Hpr, Hcl. repeat split; reflexivity.
Qed.

Lemma task_rejects_second_operand_witness :
  let '(r, s', tr) :=
    main int_decimal session_host ["task"; "1"; "2"] two_tasks in
  r = Raise (SystemExit 2) /\ exit_status r = 2%Z /\ s' = two_tasks
  /\ tr = [EvThreadsInit; EvSessionBus; EvGetObject "BUS_NAME" "OBJECT_PATH"]
          ++ [EvParseArgs; EvUsage (argparse.UnrecognizedArguments ["2"])]
  /\ calls tr = [] /\ printed tr = [].
Proof.
  apply (task_rejects_second_operand int_decimal session_host two_tasks
           daemon two_tasks _ "1" 1%Z "2" []).
  - reflexivity.
  - reflexivity.
  - constructor.
  - reflexivity.
  - reflexivity.
Defined.

(** X6.  When the daemon refuses [ListTaskIDs], the fault leaves [main]
    uncaught: [task] prints nothing, asks for no title and the process
    ends with status 1. *)
Theorem list_fault_uncaught {S} int_of_str (host : Host S) s
    iface s0 tr0 f s1 :
  get_dbus_interface host s = (Ok (Some iface), s0, tr0) ->
  ListTaskIDs iface s0 = (Fault f, s1) ->
  let '(r, s', tr) := main int_of_str host ["task"] s in
  r = Raise (DBusException f) /\ uncaught r = true /\ exit_status r = 1%Z
  /\ s' = s1 /\ tr = tr0 ++ [EvParseArgs; EvCall CallListTaskIDs]
  /\ calls tr = [CallListTaskIDs] /\ printed tr = [].
Proof.
  intros Hc Hl.
  rewrite (main_task _ _ _ _ _ _ _ _ Hc (parse_args_task_none int_of_str)).
  rewrite (cli_task_all _ _ _ (proj1 (task_namespace_lookup _))), Hl.
  destruct (connection_silent _ _ _ _ _ Hc) as (_ & Hpr & Hcl & _).
  rewrite printed_app, calls_app, Hpr, Hcl. repeat split; reflexivity.
Qed.

Lemma list_fault_uncaught_witness :
  let '(r, s', tr) :=
    main int_decimal (host_of refusing_daemon) ["task"] two_tasks in
  r = Raise (DBusException
               (OtherFault "org.freedesktop.DBus.Error.AccessDenied"))
  /\ uncaught r = true /\ exit_status r = 1%Z
  /\ s' = two_tasks
  /\ tr = [EvThreadsInit; EvSessionBus; EvGetObject "BUS_NAME" "OBJECT_PATH"]
          ++ [EvParseArgs; EvCall CallListTaskIDs]
  /\ calls tr = [CallListTaskIDs] /\ printed tr = [].
Proof.
  apply (list_fault_uncaught int_decimal (host_of refusing_daemon) two_tasks
           refusing_daemon two_tasks).
  - reflexivity.
  - reflexivity.
Defined.

(** X7.  The summary stops at the first id whose title the daemon
    refuses: the lines of the ids before it have been printed and stay
    printed, the ids after it are not asked for, and the fault leaves
    [main] uncaught, status 1. *)
Theorem summary_stops_at_first_fault {S} int_of_str (host : Host S) s
    iface s0 tr0 pre task_id post s1 titles s2 f s3 :
  get_dbus_interface host s = (Ok (Some iface), s0, tr0) ->
  ListTaskIDs iface s0 = (Reply (pre ++ task_id :: post), s1) ->
  titles_of iface pre s1 = (Some titles, s2) ->
  GetTaskTitle iface task_id s2 = (Fault f, s3) ->
  let '(r, s', tr) := main int_of_str host ["task"] s in
  r = Raise (DBusException f) /\ uncaught r = true /\ exit_status r = 1%Z
  /\ s' = s3
  /\ calls tr = CallListTaskIDs :: map CallGetTaskTitle (pre ++ [task_id])
  /\ printed tr = zip_with summary_line pre titles
  /\ length (printed tr) = length pre.
Proof.
  intros Hc Hl Ht Hg.
  rewrite (main_task _ _ _ _ _ _ _ _ Hc (parse_args_task_none int_of_str)).
  rewrite (cli_task_all _ _ _ (proj1 (task_namespace_lookup _))), Hl.
  rewrite (for_in_summary_fault iface pre _ _ _ Ht _ post _ _ Hg).
  destruct (connection_silent _ _ _ _ _ Hc) as (_ & Hpr & Hcl & _).
  pose proof (titles_of_length _ _ _ _ _ Ht) as Hlen.
  rewrite printed_app, calls_app, Hpr, Hcl. simpl.
  rewrite printed_app, calls_app, summary_events_printed,
    summary_events_calls by exact Hlen.
  simpl. rewrite app_nil_r, map_app.
  repeat split; try reflexivity.
  rewrite length_zip_with. lia.
Qed.

Lemma summary_stops_at_first_fault_witness :
  let '(r, s', tr) :=
    main int_decimal (host_of (stale_daemon [1; 3; 2]%Z)) ["task"] two_tasks in
  r = Raise (DBusException NotFoundError) /\ uncaught r = true
  /\ exit_status r = 1%Z /\ s' = two_tasks
  /\ calls tr
     = CallListTaskIDs :: map CallGetTaskTitle ([1%Z] ++ [3%Z])
  /\ printed tr = zip_with summary_line [1%Z] ["Scan A"]
  /\ length (printed tr) = length [1%Z].
Proof.
  apply (summary_stops_at_first_fault int_decimal
           (host_of (stale_daemon [1; 3; 2]%Z)) two_tasks
           (stale_daemon [1; 3; 2]%Z) two_tasks
           [EvThreadsInit; EvSessionBus; EvGetObject "BUS_NAME" "OBJECT_PATH"]
           [1%Z] 3%Z [2%Z]
           two_tasks ["Scan A"] two_tasks NotFoundError two_tasks).
  - reflexivity.
  - reflexivity.
  - reflexivity.
  - reflexivity.
Defined.

(** ** What the parser refuses *)

(** X8.  [status] takes no operand: any plain word after it makes the
    parser report the words left over; the process ends with status 2,
    prints nothing on standard output and does not call the daemon. *)
Theorem status_takes_no_operand {S} int_of_str (host : Host S) s
    iface s0 tr0 x xs :
  plain x -> Forall plain xs ->
  get_dbus_interface host s = (Ok (Some iface), s0, tr0) ->
  let '(r, s', tr) := main int_of_str host ("status" :: x :: xs) s in
  r = Raise (SystemExit 2) /\ exit_status r = 2%Z /\ s' = s0
  /\ tr = tr0 ++ [EvParseArgs;
                  EvUsage (argparse.UnrecognizedArguments (x :: xs))]
  /\ calls tr = [] /\ printed tr = [].
Proof.
  intros Hx Hxs Hc.
  pose proof (parse_args_status int_of_str (x :: xs)
                ltac:(constructor; assumption)) as Hp.
  rewrite (main_usage _ _ _ _ _ _ _ _ Hc Hp).
  destruct (connection_silent _ _ _ _ _ Hc) as (_ & Hpr & Hcl & _).
  rewrite printed_app, calls_app, Hpr, Hcl. repeat split; reflexivity.
Qed.

Lemma status_takes_no_operand_witness :
  let '(r, s', tr) :=
    main int_decimal session_host ["status"; "all"] two_tasks in
  r = Raise (SystemExit 2) /\ exit_status r = 2%Z /\ s' = two_tasks
  /\ tr = [EvThreadsInit; EvSessionBus; EvGetObject "BUS_NAME" "OBJECT_PATH"]
          ++ [EvParseArgs; EvUsage (argparse.UnrecognizedArguments ["all"])]
  /\ calls tr = [] /\ printed tr = [].
Proof.
  apply (status_takes_no_operand int_decimal session_host two_tasks daemon
           two_tasks _ "all" []).
  - reflexivity.
  - constructor.
  - reflexivity.
Defined.

(** X9.  [result] takes between one and three operands.  Without any the
    parser reports too few arguments; after a task id, a result id and a
    format that it accepts, any further plain word is reported as left
    over.  Both runs end with status 2 and without a call to the
    daemon. *)
Theorem result_operand_count {S} int_of_str (host : Host S) s
    iface s0 tr0 t r f x xs a b :
  plain t -> plain r -> plain f -> plain x -> Forall plain xs ->
  int_of_str t = Some a -> int_of_str r = Some b ->
  f = "arf" \/ f = "html" ->
  get_dbus_interface host s = (Ok (Some iface), s0, tr0) ->
  main int_of_str host ["result"] s
  = (Raise (SystemExit 2), s0,
     tr0 ++ [EvParseArgs; EvUsage argparse.TooFewArguments])
  /\ main int_of_str host ("result" :: t :: r :: f :: x :: xs) s
     = (Raise (SystemExit 2), s0,
        tr0 ++ [EvParseArgs;
                EvUsage (argparse.UnrecognizedArguments (x :: xs))])
  /\ calls (tr0 ++ [EvParseArgs; EvUsage argparse.TooFewArguments]) = []
  /\ calls (tr0 ++ [EvParseArgs;
                    EvUsage (argparse.UnrecognizedArguments (x :: xs))]) = [].
Proof.
  intros Ht Hr Hf Hx Hxs Ha Hb Hch Hc.
  pose proof (parse_args_result_many int_of_str t r f (x :: xs) a b Ht Hr Hf
                ltac:(constructor; assumption) Ha Hb Hch) as Hp.
  rewrite (main_usage _ _ _ _ _ _ _ _ Hc (parse_args_result_none int_of_str)).
  rewrite (main_usage _ _ _ _ _ _ _ _ Hc Hp).
  destruct (connection_silent _ _ _ _ _ Hc) as (_ & _ & Hcl & _).
  rewrite !calls_app, Hcl. repeat split; reflexivity.
Qed.

Lemma result_operand_count_witness :
  main int_decimal session_host ["result"] two_tasks
  = (Raise (SystemExit 2), two_tasks,
     [EvThreadsInit; EvSessionBus; EvGetObject "BUS_NAME" "OBJECT_PATH"]
     ++ [EvParseArgs; EvUsage argparse.TooFewArguments])
  /\ main int_decimal session_host ["result"; "1"; "10"; "html"; "out.html"]
       two_tasks
     = (Raise (SystemExit 2), two_tasks,
        [EvThreadsInit; EvSessionBus; EvGetObject "BUS_NAME" "OBJECT_PATH"]
        ++ [EvParseArgs;
            EvUsage (argparse.UnrecognizedArguments ["out.html"])])
  /\ calls ([EvThreadsInit; EvSessionBus;
             EvGetObject "BUS_NAME" "OBJECT_PATH"]
            ++ [EvParseArgs; EvUsage argparse.TooFewArguments]) = []
  /\ calls ([EvThreadsInit; EvSessionBus;
             EvGetObject "BUS_NAME" "OBJECT_PATH"]
            ++ [EvParseArgs;
                EvUsage (argparse.UnrecognizedArguments ["out.html"])]) = [].
Proof.
  apply (result_operand_count int_decimal session_host two_tasks daemon
           two_tasks _ "1" "10" "html" "out.html" [] 1%Z 10%Z).
  - reflexivity.
  - reflexivity.
  - reflexivity.
  - reflexivity.
  - constructor.
  - reflexivity.
  - reflexivity.
  - right. reflexivity.
  - reflexivity.
Defined.

(** X10.  The second operand of [result] is always read as RESULT_ID: a
    format cannot be given without a result id.  For a task id that
    [int()] accepts and a second plain word that it refuses, the parser
    reports the invalid value and the process ends with status 2 without
    a call to the daemon. *)
Theorem format_needs_result_id {S} int_of_str (host : Host S) s
    iface s0 tr0 t f a :
  plain t -> plain f -> int_of_str t = Some a -> int_of_str f = None ->
  get_dbus_interface host s = (Ok (Some iface), s0, tr0) ->
  let '(r, s', tr) := main int_of_str host ["result"; t; f] s in
  r = Raise (SystemExit 2) /\ exit_status r = 2%Z /\ s' = s0
  /\ tr = tr0 ++ [EvParseArgs; EvUsage (argparse.InvalidValue f)]
  /\ calls tr = [] /\ printed tr = [].
Proof.
  intros Ht Hf Ha Hn Hc.
  pose proof (parse_args_result_pair int_of_str t f Ht Hf) as Hp.
  rewrite Ha, Hn in Hp. rewrite (main_usage _ _ _ _ _ _ _ _ Hc Hp).
  destruct (connection_silent _ _ _ _ _ Hc) as (_ & Hpr & Hcl & _).
  rewrite printed_app, calls_app, Hpr, Hcl. repeat split; reflexivity.
Qed.

Lemma format_needs_result_id_witness :
  let '(r, s', tr) :=
    main int_decimal session_host ["result"; "1"; "html"] two_tasks in
  r = Raise (SystemExit 2) /\ exit_status r = 2%Z /\ s' = two_tasks
  /\ tr = [EvThreadsInit; EvSessionBus; EvGetObject "BUS_NAME" "OBJECT_PATH"]
          ++ [EvParseArgs; EvUsage (argparse.InvalidValue "html")]
  /\ calls tr = [] /\ printed tr = [].
Proof.
  apply (format_needs_result_id int_decimal session_host two_tasks daemon
           two_tasks _ "1" "html" 1%Z).
  - reflexivity.
  - reflexivity.
  - reflexivity.
  - reflexivity.
  - reflexivity.
Defined.

(** X11.  A command is required and must be one of [task], [status] and
    [result]: the empty command line is refused for too few arguments, and
    a first plain word that is none of the three names is refused as an
    invalid choice, whatever plain words follow.  Both runs end with
    status 2 and without a call to the daemon. *)
Theorem unknown_command_refused {S} int_of_str (host : Host S) s
    iface s0 tr0 w ws :
  plain w -> Forall plain ws ->
  w <> "task" -> w <> "status" -> w <> "result" ->
  get_dbus_interface host s = (Ok (Some iface), s0, tr0) ->
  main int_of_str host [] s
  = (Raise (SystemExit 2), s0,
     tr0 ++ [EvParseArgs; EvUsage argparse.TooFewArguments])
  /\ main int_of_str host (w :: ws) s
     = (Raise (SystemExit 2), s0,
        tr0 ++ [EvParseArgs; EvUsage (argparse.InvalidChoice (VStr w))])
  /\ calls (snd (main int_of_str host [] s)) = []
  /\ calls (snd (main int_of_str host (w :: ws) s)) = [].
Proof.
  intros Hw Hws H1 H2 H3 Hc.
  pose proof (parse_args_no_such_command int_of_str w ws Hw Hws
                (find_parser_other w H1 H2 H3)) as Hp.
  rewrite (main_usage _ _ _ _ _ _ _ _ Hc (parse_args_empty int_of_str)).
  rewrite (main_usage _ _ _ _ _ _ _ _ Hc Hp).
  destruct (connection_silent _ _ _ _ _ Hc) as (_ & _ & Hcl & _).
  cbn [snd]. rewrite !calls_app, Hcl. repeat split; reflexivity.
Qed.

Lemma unknown_command_refused_witness :
  main int_decimal session_host [] two_tasks
  = (Raise (SystemExit 2), two_tasks,
     [EvThreadsInit; EvSessionBus; EvGetObject "BUS_NAME" "OBJECT_PATH"]
     ++ [EvParseArgs; EvUsage argparse.TooFewArguments])
  /\ main int_decimal session_host ["tasks"; "1"] two_tasks
     = (Raise (SystemExit 2), two_tasks,
        [EvThreadsInit; EvSessionBus; EvGetObject "BUS_NAME" "OBJECT_PATH"]
        ++ [EvParseArgs; EvUsage (argparse.InvalidChoice (VStr "tasks"))])
  /\ calls (snd (main int_decimal session_host [] two_tasks)) = []
  /\ calls (snd (main int_decimal session_host ["tasks"; "1"] two_tasks))
     = [].
Proof.
  apply (unknown_command_refused int_decimal session_host two_tasks daemon
           two_tasks _ "tasks" ["1"]).
  - reflexivity.
  - repeat constructor.
  - discriminate.
  - discriminate.
  - discriminate.
  - reflexivity.
Defined.

(** ** The help option *)

(** X12.  [-h] or [--help] as the first word, or right after the name of
    a command, wins over everything that follows it, plain words or
    not: the parser prints its help and the process ends with status 0,
    after the connection attempt and without a call to the daemon. *)
Theorem help_wins {S} int_of_str (host : Host S) s iface s0 tr0 h name ws :
  h = "-h" \/ h = "--help" ->
  name = "task" \/ name = "status" \/ name = "result" ->
  get_dbus_interface host s = (Ok (Some iface), s0, tr0) ->
  main int_of_str host (h :: ws) s
  = (Raise (SystemExit 0), s0, tr0 ++ [EvParseArgs; EvHelp])
  /\ main int_of_str host (name :: h :: ws) s
     = (Raise (SystemExit 0), s0, tr0 ++ [EvParseArgs; EvHelp])
  /\ exit_status (Raise (SystemExit 0)) = 0%Z
  /\ calls (tr0 ++ [EvParseArgs; EvHelp]) = []
  /\ printed (tr0 ++ [EvParseArgs; EvHelp]) = [].
Proof.
  intros Hh Hn Hc.
  assert (Hin : In h argparse.option_strings)
    by (destruct Hh as [->| ->]; simpl; auto).
  assert (Hp : exists p, plain name
                         /\ argparse.find_parser name subparsers = Some p).
  { destruct Hn as [->|[->| ->]]; eexists; split; reflexivity. }
  destruct Hp as (p & Hpl & Hf).
  rewrite (main_help _ _ _ _ _ _ _ Hc (parse_args_help int_of_str h ws Hin)).
  rewrite (main_help _ _ _ _ _ _ _ Hc
             (parse_args_sub_help int_of_str name p h ws Hpl Hf Hin)).
  destruct (connection_silent _ _ _ _ _ Hc) as (_ & Hpr & Hcl & _).
  rewrite printed_app, calls_app, Hpr, Hcl. repeat split; reflexivity.
Qed.

Lemma help_wins_witness :
  main int_decimal session_host ["--help"; "--no-such-option"] two_tasks
  = (Raise (SystemExit 0), two_tasks,
     [EvThreadsInit; EvSessionBus; EvGetObject "BUS_NAME" "OBJECT_PATH"]
     ++ [EvParseArgs; EvHelp])
  /\ main int_decimal session_host ["result"; "--help"; "--no-such-option"]
       two_tasks
     = (Raise (SystemExit 0), two_tasks,
        [EvThreadsInit; EvSessionBus; EvGetObject "BUS_NAME" "OBJECT_PATH"]
        ++ [EvParseArgs; EvHelp])
  /\ exit_status (Raise (SystemExit 0)) = 0%Z
  /\ calls ([EvThreadsInit; EvSessionBus;
             EvGetObject "BUS_NAME" "OBJECT_PATH"]
            ++ [EvParseArgs; EvHelp]) = []
  /\ printed ([EvThreadsInit; EvSessionBus;
               EvGetObject "BUS_NAME" "OBJECT_PATH"]
              ++ [EvParseArgs; EvHelp]) = [].
Proof.
  apply (help_wins int_decimal session_host two_tasks daemon two_tasks _
           "--help" "result" ["--no-such-option"]).
  - right. reflexivity.
  - right. right. reflexivity.
  - reflexivity.
Defined.

(** ** Every run *)

(** X13.  The exit status of a run is 0, 1 or 2, and it is 2 exactly when
    the parser has reported a usage error; in that case nothing was
    printed on standard output, the daemon was not called and its state
    is what it was. *)
Theorem exit_status_two_iff_usage {S} int_of_str (host : Host S) argv s :
  let '(r, s', tr) := main int_of_str host argv s in
  (exit_status r = 0%Z \/ exit_status r = 1%Z \/ exit_status r = 2%Z)
  /\ (exit_status r = 2%Z <-> exists e, In (EvUsage e) tr)
  /\ (exit_status r = 2%Z -> printed tr = [] /\ calls tr = [] /\ s' = s).
Proof.
  destruct (get_dbus_interface host s) as [[r0 s0] tr0] eqn:Hc.
  destruct (connection_silent _ _ _ _ _ Hc) as (-> & Hpr & Hcl & _).
  assert (Hno : forall e, ~ In (EvUsage e) tr0).
  { intros e Hin.
    destruct (get_dbus_interface_events _ _ _ _ _ Hc) as [->| ->];
      repeat destruct Hin as [Hin|Hin]; try discriminate; contradiction. }
  destruct r0 as [[iface|]|e0].
  - rewrite (main_connected _ _ _ _ _ _ _ Hc).
    destruct (argparse.parse_args int_of_str subparsers argv)
      as [ns| |e|[|w|w]].
    + pose proof (dispatch_command_events iface ns s) as Hev.
      pose proof (dispatch_no_exit iface ns s) as Hr.
      destruct (dispatch (Some iface) ns s) as [[r1 s1] tr1]. simpl in Hr.
      destruct (command_events_silent _ Hev) as (_ & _ & _ & _ & Hu & _).
      assert (Hst : exit_status r1 = 0%Z \/ exit_status r1 = 1%Z)
        by (destruct Hr as [Hr| ->];
            [right; apply uncaught_exit_status; exact Hr|left; reflexivity]).
      split; [tauto|]. split; [split|]; try lia.
      intros [e Hin]. exfalso.
      apply in_app_or in Hin as [Hin|[Hin|Hin]];
        [eapply Hno; eauto|discriminate|eapply Hu; eauto].
    + simpl. split; [auto|]. split; [split|]; try lia.
      intros [e Hin]. exfalso.
      apply in_app_or in Hin as [Hin|Hin]; [eapply Hno; eauto|].
      repeat destruct Hin as [Hin|Hin]; try discriminate; contradiction.
    + simpl. split; [auto|]. split; [split|].
      * intros _. exists e. apply in_or_app. right. right. left. reflexivity.
      * reflexivity.
      * intros _. rewrite printed_app, calls_app, Hpr, Hcl.
        repeat split; reflexivity.
    + simpl. split; [auto|]. split; [split|]; try lia.
      intros [e Hin]. exfalso.
      apply in_app_or in Hin as [Hin|Hin]; [eapply Hno; eauto|].
      repeat destruct Hin as [Hin|Hin]; try discriminate; contradiction.
    + simpl. split; [auto|]. split; [split|]; try lia.
      intros [e Hin]. exfalso.
      apply in_app_or in Hin as [Hin|Hin]; [eapply Hno; eauto|].
      repeat destruct Hin as [Hin|Hin]; try discriminate; contradiction.
    + simpl. split; [auto|]. split; [split|]; try lia.
      intros [e Hin]. exfalso.
      apply in_app_or in Hin as [Hin|Hin]; [eapply Hno; eauto|].
      repeat destruct Hin as [Hin|Hin]; try discriminate; contradiction.
  - rewrite (main_no_interface _ _ _ _ _ _ Hc).
    simpl. split; [auto|]. split; [split|]; try lia.
    intros [e Hin]. exfalso.
    apply in_app_or in Hin as [Hin|Hin]; [eapply Hno; eauto|].
    repeat destruct Hin as [Hin|Hin]; try discriminate; contradiction.
  - rewrite (main_connect_raises _ _ _ _ _ _ _ Hc).
    destruct (connection_fault _ _ _ _ _ Hc) as [f ->].
    simpl. split; [auto|]. split; [split|]; try lia.
    intros [e Hin]. exfalso. eapply Hno; eauto.
Qed.

(** X15.  [parser.parse_args()], for the parser that [main] builds,
    never raises a TypeError or an AttributeError, whatever the command
    line.  It can raise an IndexError, and does whenever the first word is
    [-h=]: the run then ends uncaught with status 1, after the connection
    attempt, without a call to the daemon and without anything printed on
    standard output. *)
Theorem parser_exceptions {S} int_of_str (host : Host S) s iface s0 tr0
    argv ws :
  get_dbus_interface host s = (Ok (Some iface), s0, tr0) ->
  (forall attr,
     fst (fst (parser_parse_args (S:=S) int_of_str argv s0))
     <> Raise (AttributeError attr))
  /\ (forall what,
        fst (fst (parser_parse_args (S:=S) int_of_str argv s0))
        <> Raise (TypeError what))
  /\ let '(r, s', tr) := main int_of_str host ("-h=" :: ws) s in
     r = Raise IndexError /\ uncaught r = true /\ exit_status r = 1%Z
     /\ s' = s0 /\ tr = tr0 ++ [EvParseArgs]
     /\ calls tr = [] /\ printed tr = [].
Proof.
  intros Hc.
  assert (Hb : forall e,
            fst (fst (parser_parse_args (S:=S) int_of_str argv s0)) = Raise e ->
            e = SystemExit 0 \/ e = SystemExit 2 \/ e = IndexError).
  { intros e. unfold parser_parse_args, bind, emit, raise, ret.
    pose proof (parse_args_benign int_of_str argv) as Hb.
    destruct (argparse.parse_args int_of_str subparsers argv)
      as [ns| |e'|[|w|w]]; simpl; try contradiction;
      intros [= <-]; auto. }
  split; [|split].
  - intros attr H. destruct (Hb _ H) as [E|[E|E]]; discriminate E.
  - intros what H. destruct (Hb _ H) as [E|[E|E]]; discriminate E.
  - rewrite (main_connected _ _ _ _ _ _ _ Hc),
      (parse_args_index_error int_of_str ws).
    destruct (connection_silent _ _ _ _ _ Hc) as (_ & Hpr & Hcl & _).
    rewrite printed_app, calls_app, Hpr, Hcl. repeat split; reflexivity.
Qed.

Lemma parser_exceptions_witness :
  (forall attr,
     fst (fst (parser_parse_args (S:=Tasks) int_decimal ["task"; "1"]
                 two_tasks))
     <> Raise (AttributeError attr))
  /\ (forall what,
        fst (fst (parser_parse_args (S:=Tasks) int_decimal ["task"; "1"]
                    two_tasks))
        <> Raise (TypeError what))
  /\ let '(r, s', tr) :=
       main int_decimal session_host ["-h="; "task"] two_tasks in
     r = Raise IndexError /\ uncaught r = true /\ exit_status r = 1%Z
     /\ s' = two_tasks
     /\ tr = [EvThreadsInit; EvSessionBus;
              EvGetObject "BUS_NAME" "OBJECT_PATH"] ++ [EvParseArgs]
     /\ calls tr = [] /\ printed tr = [].
Proof.
  apply (parser_exceptions int_decimal session_host two_tasks daemon
           two_tasks
           [EvThreadsInit; EvSessionBus; EvGetObject "BUS_NAME" "OBJECT_PATH"]
           ["task"; "1"] ["task"]).
  reflexivity.
Defined.

(** ** The namespace that the handlers are given *)

(** X16.  Whatever the command line, a namespace that the parser accepts
    has one of three shapes: the action [task] with a [task_id] that is
    [None] or an integer; the action [status]; the action [result] with a
    [result_id] that is [None] or an integer and the format [arf] or
    [html]. *)
Theorem accepted_arguments_typed int_of_str argv ns :
  argparse.parse_args int_of_str subparsers argv = argparse.Done ns ->
  (ns !! "action" = Some (VStr "task")
   /\ (ns !! "task_id" = Some VNone
       \/ exists z, ns !! "task_id" = Some (VInt z)))
  \/ ns !! "action" = Some (VStr "status")
  \/ (ns !! "action" = Some (VStr "result")
      /\ (ns !! "result_id" = Some VNone
          \/ exists z, ns !! "result_id" = Some (VInt z))
      /\ (ns !! "format" = Some (VStr "arf")
          \/ ns !! "format" = Some (VStr "html"))).
Proof.
  intros Hp. exact (parse_args_args_ok int_of_str argv ns Hp).
Qed.

Lemma accepted_arguments_typed_witness :
  (task_namespace (VInt 7) !! "action" = Some (VStr "task")
   /\ (task_namespace (VInt 7) !! "task_id" = Some VNone
       \/ exists z, task_namespace (VInt 7) !! "task_id" = Some (VInt z)))
  \/ task_namespace (VInt 7) !! "action" = Some (VStr "status")
  \/ (task_namespace (VInt 7) !! "action" = Some (VStr "result")
      /\ (task_namespace (VInt 7) !! "result_id" = Some VNone
          \/ exists z, task_namespace (VInt 7) !! "result_id" = Some (VInt z))
      /\ (task_namespace (VInt 7) !! "format" = Some (VStr "arf")
          \/ task_namespace (VInt 7) !! "format" = Some (VStr "html"))).
Proof.
  apply (accepted_arguments_typed int_decimal ["task"; "7"]).
  vm_compute. reflexivity.
Defined.
